(** * sextant: cloud-config-server/cache

    A shallow embedding of [cache.go] and the properties of its
    bootstrap, refresh loop, accessor and shutdown.

    The package talks to three things outside itself: an HTTP server, the
    local file system and the logger.  They are gathered in a [World] that
    the code threads through an [IO] monad with panics.  The goroutine
    started by [New] and the callers of [Get] and [Close] are interleaved
    by a labelled step function over a [State] holding the one shared
    [Cache] object. *)

From Stdlib Require Import ZArith String List Bool Lia.
From stdpp Require Import gmap strings list.

Local Open Scope Z_scope.
Local Open Scope string_scope.

(** ** The fragment of Go the package relies on *)

Module Go.

(** [[]byte]: [None] is the nil slice. *)
Definition bytes : Type := option (list Byte.byte).

(** The [error] interface: [None] is nil, otherwise the message. *)
Definition error : Type := option string.

(** What the verb [%v] prints for an [error]. *)
Definition fmt_v (e : error) : string :=
  match e with
  | None => "<nil>"
  | Some msg => msg
  end.

(** Result of [ioutil.ReadAll(resp.Body)]. *)
Inductive Body : Type :=
| BodyOk (data : list Byte.byte)
| BodyErr (msg : string).

Record Response : Type := { StatusCode : Z; body : Body }.

(** Result of [client.Get(url)]: net/http returns a usable response
    exactly when the error is nil. *)
Inductive GetResult : Type :=
| GetErr (msg : string)
| GetResp (resp : Response).

Inductive Event : Type :=
| EGet (url : string) (timeout : Z)
| EReadFile (fn : string)
| EWriteFile (fn : string) (data : bytes) (perm : Z).

(** Everything outside the process.  [remote u n] is what the server
    answers to the [n]-th GET issued so far (timeouts are [GetErr]);
    [wfault n] is the fault, if any, hitting the [n]-th file write. *)
Record World : Type := {
  remote : string -> nat -> GetResult;
  gets : nat;
  files : gmap string (list Byte.byte);
  wfault : nat -> error;
  writes : nat;
  logged : list string;
  trace : list Event
}.

(** A computation either returns or panics. *)
Inductive Result (A : Type) : Type :=
| Ret (a : A) (w : World)
| Panic (msg : string) (w : World).
Arguments Ret {A} a w.
Arguments Panic {A} msg w.

Definition IO (A : Type) : Type := World -> Result A.

Definition ret {A} (a : A) : IO A := fun w => Ret a w.

Definition bind {A B} (m : IO A) (k : A -> IO B) : IO B :=
  fun w =>
    match m w with
    | Ret a w' => k a w'
    | Panic msg w' => Panic msg w'
    end.

Definition panic {A} (msg : string) : IO A := fun w => Panic msg w.

Definition returns {A} (r : Result A) : Prop := exists a w, r = Ret a w.

Definition world_of {A} (r : Result A) : World :=
  match r with
  | Ret _ w => w
  | Panic _ w => w
  end.

(** The world once [e] has happened. *)
Definition emit (e : Event) (w : World) : World :=
  {| remote := remote w; gets := gets w; files := files w;
     wfault := wfault w; writes := writes w; logged := logged w;
     trace := trace w ++ [e] |}.

(** The world once [msg] has been logged. *)
Definition say (msg : string) (w : World) : World :=
  {| remote := remote w; gets := gets w; files := files w;
     wfault := wfault w; writes := writes w;
     logged := logged w ++ [msg]; trace := trace w |}.

(** The world once one more GET has been answered. *)
Definition asked (url : string) (timeout : Z) (w : World) : World :=
  let w1 := emit (EGet url timeout) w in
  {| remote := remote w1; gets := S (gets w1); files := files w1;
     wfault := wfault w1; writes := writes w1; logged := logged w1;
     trace := trace w1 |}.

(** The world once one more file write has been attempted: [store]
    tells whether it went through. *)
Definition wrote (fn : string) (data : list Byte.byte) (store : bool)
    (e : Event) (w : World) : World :=
  let w1 := emit e w in
  {| remote := remote w1; gets := gets w1;
     files := if store then <[fn := data]> (files w1) else files w1;
     wfault := wfault w1; writes := S (writes w1);
     logged := logged w1; trace := trace w1 |}.

(** [log.Printf] with the message already formatted. *)
Definition log_Printf (msg : string) : IO unit :=
  fun w => Ret tt (say msg w).

(** [log.Panicf]: print, then panic with the same message. *)
Definition log_Panicf {A} (msg : string) : IO A :=
  bind (log_Printf msg) (fun _ => panic msg).

(** [http.Client{Timeout: timeout}.Get(url)]. *)
Definition client_Get (timeout : Z) (url : string) : IO GetResult :=
  fun w => Ret (remote w url (gets w)) (asked url timeout w).

(** [ioutil.ReadAll(resp.Body)]. *)
Definition ReadAll (b : Body) : IO (bytes * error) :=
  match b with
  | BodyOk data => ret (Some data, None)
  | BodyErr msg => ret (None, Some msg)
  end.

(** [ioutil.ReadFile(fn)]. *)
Definition ReadFile (fn : string) : IO (bytes * error) :=
  fun w =>
    let w1 := emit (EReadFile fn) w in
    match files w !! fn with
    | Some data => Ret (Some data, None) w1
    | None => Ret (None, Some ("open " ++ fn ++ ": no such file or directory")) w1
    end.

(** The bytes a slice holds: none for the nil slice. *)
Definition data_of (b : bytes) : list Byte.byte :=
  match b with
  | Some l => l
  | None => []
  end.

(** [ioutil.WriteFile(fn, data, perm)]: creates or truncates [fn]; a
    faulty write leaves the file as it was. *)
Definition WriteFile (fn : string) (data : bytes) (perm : Z) : IO error :=
  fun w =>
    match wfault w (writes w) with
    | Some msg =>
        Ret (Some msg) (wrote fn (data_of data) false (EWriteFile fn data perm) w)
    | None =>
        Ret None (wrote fn (data_of data) true (EWriteFile fn data perm) w)
    end.

(** *** Channels *)

(** A [chan int]: buffer, capacity, closed flag and the goroutines
    parked on a send, each with the value it is sending. *)
Record Chan : Type := {
  buf : list Z;
  cap : nat;
  closed : bool;
  sendq : list (nat * Z)
}.

Definition make_chan (n : nat) : Chan :=
  {| buf := []; cap := n; closed := false; sendq := [] |}.

Inductive Sent : Type :=
| SendPanic                (* send on closed channel *)
| SendDone (c : Chan)      (* the value is in the buffer *)
| SendWouldBlock.          (* no room and nobody receiving *)

(** The send of [select { case c <- v: default: }]. *)
Definition try_send (c : Chan) (v : Z) : Sent :=
  if closed c then SendPanic
  else if (length (buf c) <? cap c)%nat then
    SendDone {| buf := buf c ++ [v]; cap := cap c;
                closed := closed c; sendq := sendq c |}
  else SendWouldBlock.

Inductive Parked : Type :=
| ParkPanic
| ParkDone (c : Chan)
| ParkWait (c : Chan).

(** [c <- v] by goroutine [t] while nobody is blocked receiving from
    [c]: panics when closed, is buffered when there is room, otherwise
    parks [t]. *)
Definition send (c : Chan) (t : nat) (v : Z) : Parked :=
  match try_send c v with
  | SendPanic => ParkPanic
  | SendDone c' => ParkDone c'
  | SendWouldBlock =>
      ParkWait {| buf := buf c; cap := cap c; closed := closed c;
                  sendq := sendq c ++ [(t, v)] |}
  end.

Inductive Received : Type :=
| Recv (v : Z) (woken : option nat) (c : Chan)
| RecvClosed               (* zero value of a closed, drained channel *)
| RecvWouldBlock.

(** The receive of a [select] case [<-c].  A value comes from the
    buffer (a parked sender then refills it) or straight from the first
    parked sender; either way that sender resumes. *)
Definition try_recv (c : Chan) : Received :=
  match buf c, sendq c with
  | v :: rest, [] =>
      Recv v None {| buf := rest; cap := cap c;
                     closed := closed c; sendq := [] |}
  | v :: rest, (t, v') :: q =>
      Recv v (Some t) {| buf := rest ++ [v']; cap := cap c;
                         closed := closed c; sendq := q |}
  | [], (t, v') :: q =>
      Recv v' (Some t) {| buf := []; cap := cap c;
                          closed := closed c; sendq := q |}
  | [], [] => if closed c then RecvClosed else RecvWouldBlock
  end.

Inductive Closed : Type :=
| ClosePanic               (* close of closed channel *)
| CloseDone (c : Chan) (woken : list nat).

(** [close(c)]: closing twice panics; the senders still parked on the
    channel are woken and panic in their own goroutine. *)
Definition close_chan (c : Chan) : Closed :=
  if closed c then ClosePanic
  else CloseDone {| buf := buf c; cap := cap c; closed := true; sendq := [] |}
                 (map fst (sendq c)).

End Go.

Notation "'let!' x ':=' m 'in' k" := (Go.bind m (fun x => k))
  (at level 10, x pattern, m at level 100, k at level 200, only parsing).

(** ** Package cache *)

Module cache.
Import Go.

Record Cache : Type := {
  filename : string;
  url : string;
  content : bytes;
  update : Chan;   (* writing into this channel triggers an update *)
  close : Chan     (* writing into this channel closes the cache *)
}.

(** [time.Second], in nanoseconds as [time.Duration] counts. *)
Definition second : Z := 1000000000.
Definition loadTimeout : Z := 15 * second.
Definition updatePeriod : Z := 20 * second.

Definition set_content (c : Cache) (b : bytes) : Cache :=
  {| filename := filename c; url := url c; content := b;
     update := update c; close := close c |}.

Definition set_update (c : Cache) (ch : Chan) : Cache :=
  {| filename := filename c; url := url c; content := content c;
     update := ch; close := close c |}.

Definition set_close (c : Cache) (ch : Chan) : Cache :=
  {| filename := filename c; url := url c; content := content c;
     update := update c; close := ch |}.

(** [err] of [resp, err := client.Get(url)]. *)
Definition err_of (r : GetResult) : error :=
  match r with
  | GetErr msg => Some msg
  | GetResp _ => None
  end.

Definition httpGet (url : string) (timeout : Z) : IO (bytes * error) :=
  let! r := client_Get timeout url in
  let err := err_of r in
  match r with
  | GetErr _ =>
      (* err != nil *)
      let! _ := log_Printf (fmt_v err) in
      ret (None, err)
  | GetResp resp =>
      if negb (StatusCode resp =? 200)%Z then
        (* resp.StatusCode != 200 *)
        let! _ := log_Printf (fmt_v err) in
        ret (None, err)
      else
        let! (body, err) := ReadAll (body resp) in
        match err with
        | Some _ =>
            let! _ := log_Printf (fmt_v err) in
            ret (None, err)
        | None => ret (body, None)
        end
  end.

Definition load (url fn : string) : IO bytes :=
  let! (b, e) := httpGet url loadTimeout in
  match e with
  | Some _ =>
      let! _ := log_Printf ("Cannot load from " ++ url ++ ": " ++ fmt_v e
                            ++ ". Try load from local file.") in
      let! (b, e) := ReadFile fn in
      match e with
      | Some _ =>
          log_Panicf ("Cannot load from local file " ++ fn ++ " either: "
                      ++ fmt_v e)
      | None => ret b
      end
  | None => ret b
  end.

(** Where the goroutine started by [New] stands. *)
Inductive PC : Type :=
| Select1        (* select { case <-tic: case <-c.update: } *)
| Fetch          (* httpGet, and on e == nil: c.content = b *)
| Persist (b : bytes)  (* ioutil.WriteFile(c.filename, b, 0644) *)
| Select2        (* select { case <-c.close: ... default: } *)
| CloseUpdate    (* close(c.update) *)
| CloseClose     (* close(c.close) *)
| Exited.        (* return *)

(** The process: the shared [Cache], the goroutine, its ticker channel
    and the callers whose [Close] has returned. *)
Record State : Type := {
  cache : Cache;
  pc : PC;
  tic : Chan;
  returned : list nat
}.

(** [New] builds the struct (panicking with [load]) and starts the
    goroutine, which creates its ticker and waits at the first select. *)
Definition New (url filename : string) : IO State :=
  let! b := load url filename in
  ret {| cache := {| filename := filename; url := url; content := b;
                     update := make_chan 1; close := make_chan 0 |};
         pc := Select1;
         tic := make_chan 1;
         returned := [] |}.

(** [Get] reads the snapshot, then offers a value to [c.update] without
    waiting.  The channel lives in the shared [Cache], returned updated. *)
Definition Get (c : Cache) : IO (bytes * Cache) :=
  let b := content c in
  match try_send (update c) 1 with
  | SendPanic => panic "send on closed channel"
  | SendDone ch => ret (b, set_update c ch)
  | SendWouldBlock => ret (b, c)
  end.

(** [c.close <- 1] by caller [t]; the call returns once the goroutine
    has received the value. *)
Definition Close (t : nat) (c : Cache) : IO Cache :=
  match send (close c) t 1 with
  | ParkPanic => panic "send on closed channel"
  | ParkDone ch => ret (set_close c ch)
  | ParkWait ch => ret (set_close c ch)
  end.

(** Lines 60-61: the fetch of one round and, when [e == nil], the
    assignment to [c.content].  The bytes are handed on to [persist]. *)
Definition fetch (c : Cache) : IO (Cache * option bytes) :=
  let! (b, e) := httpGet (url c) loadTimeout in
  match e with
  | None => ret (set_content c b, Some b)
  | Some _ => ret (c, None)
  end.

(** Lines 62-64: the write of the fetched bytes to the local file. *)
Definition persist (c : Cache) (b : bytes) : IO unit :=
  let! e := WriteFile (filename c) b 420 in
  match e with
  | Some _ =>
      log_Printf ("Cannot write to local file " ++ filename c
                  ++ ": " ++ fmt_v e)
  | None => ret tt
  end.

Definition at_pc (s : State) (p : PC) : State :=
  {| cache := cache s; pc := p; tic := tic s; returned := returned s |}.

Definition with_cache (s : State) (c : Cache) : State :=
  {| cache := c; pc := pc s; tic := tic s; returned := returned s |}.

Definition wake (s : State) (t : option nat) : State :=
  {| cache := cache s; pc := pc s; tic := tic s;
     returned := match t with
                 | Some t => returned s ++ [t]
                 | None => returned s
                 end |}.

Inductive Action : Type :=
| TimerFires          (* the ticker offers a tick, dropped when one is pending *)
| BgTic               (* the goroutine takes [case <-tic] *)
| BgUpdate            (* the goroutine takes [case <-c.update] *)
| BgRun               (* the goroutine runs its next statement past the first select *)
| CallGet             (* some caller runs [c.Get()] *)
| CallClose (t : nat) (* caller [t] enters [c.Close()] *).

(** The goroutine of [New], one statement at a time.  [None]: the
    goroutine cannot take that case now. *)
Definition goroutine (a : Action) (s : State) : IO (option State) :=
  match pc s, a with
  | Select1, BgTic =>
      match try_recv (tic s) with
      | Recv _ _ ch =>
          ret (Some {| cache := cache s; pc := Fetch; tic := ch;
                       returned := returned s |})
      | RecvClosed => ret (Some (at_pc s Fetch))
      | RecvWouldBlock => ret None
      end
  | Select1, BgUpdate =>
      match try_recv (update (cache s)) with
      | Recv _ t ch =>
          ret (Some (wake (at_pc (with_cache s (set_update (cache s) ch)) Fetch) t))
      | RecvClosed => ret (Some (at_pc s Fetch))
      | RecvWouldBlock => ret None
      end
  | Fetch, BgRun =>
      let! (c, fetched) := fetch (cache s) in
      ret (Some (at_pc (with_cache s c)
                       match fetched with
                       | Some b => Persist b
                       | None => Select2
                       end))
  | Persist b, BgRun =>
      let! _ := persist (cache s) b in
      ret (Some (at_pc s Select2))
  | Select2, BgRun =>
      match try_recv (close (cache s)) with
      | Recv _ t ch =>
          ret (Some (wake (at_pc (with_cache s (set_close (cache s) ch)) CloseUpdate) t))
      | RecvClosed => ret (Some (at_pc s CloseUpdate))
      | RecvWouldBlock => ret (Some (at_pc s Select1))
      end
  | CloseUpdate, BgRun =>
      match close_chan (update (cache s)) with
      | ClosePanic => panic "close of closed channel"
      | CloseDone ch [] =>
          ret (Some (at_pc (with_cache s (set_update (cache s) ch)) CloseClose))
      | CloseDone _ (_ :: _) => panic "send on closed channel"
      end
  | CloseClose, BgRun =>
      match close_chan (close (cache s)) with
      | ClosePanic => panic "close of closed channel"
      | CloseDone ch [] =>
          ret (Some (at_pc (with_cache s (set_close (cache s) ch)) Exited))
      | CloseDone _ (_ :: _) => panic "send on closed channel"
      end
  | _, _ => ret None
  end.

(** One action of the process.  A panic, in whichever goroutine, is a
    panic of the whole process. *)
Definition step (a : Action) (s : State) : IO (option State) :=
  match a with
  | TimerFires =>
      match try_send (tic s) 0 with
      | SendDone ch =>
          ret (Some {| cache := cache s; pc := pc s; tic := ch;
                       returned := returned s |})
      | _ => ret (Some s)
      end
  | CallGet =>
      let! (_, c) := Get (cache s) in
      ret (Some (with_cache s c))
  | CallClose t =>
      let! c := Close t (cache s) in
      ret (Some (with_cache s c))
  | _ => goroutine a s
  end.

(** A schedule, action after action; [None] when some action of it
    cannot be taken. *)
Fixpoint exec (acts : list Action) (s : State) : IO (option State) :=
  match acts with
  | [] => ret (Some s)
  | a :: rest =>
      let! o := step a s in
      match o with
      | Some s' => exec rest s'
      | None => ret None
      end
  end.

End cache.

(** ** Reachable states and what holds of them *)

Module Props.
Import Go cache.

(** [s], in world [w], is a state of some cache built by [New]. *)
Definition reachable (s : State) (w : World) : Prop :=
  exists url fn w0 s0 w1 acts,
    New url fn w0 = Ret s0 w1 /\ exec acts s0 w1 = Ret (Some s) w.

(** The request channel holds at most one value and parks nobody; the
    shutdown channel has no buffer; which channels are closed follows
    the goroutine. *)
Definition chans_ok (s : State) : Prop :=
  let u := update (cache s) in
  let c := close (cache s) in
  (cap u = 1 /\ length (buf u) <= 1 /\ sendq u = [])%nat
  /\ (cap c = 0%nat /\ buf c = [])
  /\ (cap (tic s) = 1 /\ length (buf (tic s)) <= 1
      /\ sendq (tic s) = [] /\ closed (tic s) = false)%nat
  /\ match pc s with
     | CloseClose => closed u = true /\ closed c = false
     | Exited => closed u = true /\ closed c = true
     | _ => closed u = false /\ closed c = false
     end.

(** The goroutine has received a shutdown request. *)
Definition accepted (p : PC) : bool :=
  match p with
  | CloseUpdate | CloseClose | Exited => true
  | _ => false
  end.

(** Caller [t] is blocked in [Close]. *)
Definition parked (t : nat) (s : State) : Prop :=
  In (t, 1) (sendq (close (cache s))).

(** Actions of the goroutine itself (the ticker is not one). *)
Definition goroutine_action (a : Action) : bool :=
  match a with
  | BgTic | BgUpdate | BgRun => true
  | _ => false
  end.

(** Actions of the callers and of the ticker. *)
Definition outside_action (a : Action) : bool := negb (goroutine_action a).

(** A fetch the goroutine is committed to: it is past the first select. *)
Definition inflight (s : State) : nat :=
  match pc s with
  | Fetch => 1
  | _ => 0
  end.

(** Wake-ups waiting for the goroutine: refresh requests and ticks. *)
Definition pending (s : State) : nat :=
  length (buf (update (cache s))) + length (buf (tic s)).

(** The cache once a refresh has been requested: a request is put in
    the buffer unless one is there already. *)
Definition requested (c : Cache) : Cache :=
  match buf (update c) with
  | [] =>
      set_update c {| buf := [1]; cap := cap (update c);
                      closed := closed (update c);
                      sendq := sendq (update c) |}
  | _ :: _ => c
  end.

(** A source that never answers with a status other than 200. *)
Definition only_200 (w : World) : Prop :=
  forall u n resp, remote w u n = GetResp resp -> StatusCode resp = 200.

(** Ticks and [Get] calls of a schedule: the invitations to fetch. *)
Fixpoint invitations (acts : list Action) : nat :=
  match acts with
  | [] => 0
  | TimerFires :: rest => S (invitations rest)
  | CallGet :: rest => S (invitations rest)
  | _ :: rest => invitations rest
  end.

(** What the refresh loop of a cache for [url] and [fn] may do to the
    outside: GET [url] with the load timeout, write [fn] with mode 0644. *)
Definition refresh_event (url fn : string) (e : Event) : Prop :=
  match e with
  | EGet u timeout => u = url /\ timeout = loadTimeout
  | EWriteFile f _ perm => f = fn /\ perm = 420
  | EReadFile _ => False
  end.

(** The two messages [load] logs on its way to the fallback file. *)
Definition try_local_msg (url : string) (e : string) : string :=
  "Cannot load from " ++ url ++ ": " ++ e ++ ". Try load from local file.".



End Props.

(** ** Concrete worlds *)

Module Samples.
Import Go cache.

Definition txt (s : string) : list Byte.byte := list_byte_of_string s.

Definition ok (s : string) : GetResult :=
  GetResp {| StatusCode := 200; body := BodyOk (txt s) |}.

Definition status (code : Z) : GetResult :=
  GetResp {| StatusCode := code; body := BodyOk (txt "Not Found") |}.

Definition source : string := "http://source/cloud-config".
Definition fallback : string := "/var/cache/cloud-config".

Definition mkWorld (answers : nat -> GetResult)
    (fs : gmap string (list Byte.byte)) (faults : nat -> error) : World :=
  {| remote := fun _ => answers; gets := 0; files := fs;
     wfault := faults; writes := 0; logged := []; trace := [] |}.

Definition no_fault : nat -> error := fun _ => None.

(** The source always answers 404; nothing on disk. *)
Definition w_404 : World := mkWorld (fun _ => status 404) ∅ no_fault.

(** The source always answers 404; the fallback file holds "local". *)
Definition w_404_local : World :=
  mkWorld (fun _ => status 404) {[ fallback := txt "local" ]} no_fault.


(** The source is unreachable; the fallback file holds "local". *)
Definition w_down_local : World :=
  mkWorld (fun _ => GetErr "dial tcp: connection refused")
          {[ fallback := txt "local" ]} no_fault.

(** The source answers "v1" once, then 404. *)
Definition w_v1_then_404 : World :=
  mkWorld (fun n => match n with O => ok "v1" | _ => status 404 end) ∅ no_fault.


(** The source always answers "v1"; the disk works. *)
Definition w_v1 : World := mkWorld (fun _ => ok "v1") ∅ no_fault.

(** [New], then the schedule [acts]. *)
Definition run (acts : list Action) (w : World) : Result (option State) :=
  (let! s := New source fallback in exec acts s) w.

(** A cache that has shut down; stands for "no state" below. *)
Definition gone : State :=
  {| cache := {| filename := fallback; url := source; content := None;
                 update := make_chan 1; close := make_chan 0 |};
     pc := Exited; tic := make_chan 1; returned := [] |}.

(** State and world once [New] and the schedule [acts] have run. *)
Definition state_after (acts : list Action) (w : World) : State :=
  match run acts w with
  | Ret (Some s) _ => s
  | _ => gone
  end.

Definition world_after (acts : list Action) (w : World) : World :=
  world_of (run acts w).

(** The timer wakes the goroutine, which fetches. *)
Definition tick_fetch : list Action := [TimerFires; BgTic; BgRun].

(** A caller asks to shut down; the goroutine, woken by the timer,
    fetches (in vain) and accepts the request. *)
Definition accepting (t : nat) : list Action :=
  CallClose t :: tick_fetch ++ [BgRun].

(** A caller asks to shut down; the goroutine, woken by the timer,
    fetches (in vain), accepts the request, closes both channels and
    returns. *)
Definition shutdown (t : nat) : list Action :=
  CallClose t :: tick_fetch ++ [BgRun; BgRun; BgRun].

End Samples.

Local Open Scope list_scope.

(** ** The fetch helper *)

Module FetchSpec.
Import Go cache Props.

Lemma httpGet_transport_error url timeout w msg :
  remote w url (gets w) = GetErr msg ->
  httpGet url timeout w = Ret (None, Some msg) (say msg (asked url timeout w)).
Proof.
  intros H. unfold httpGet, bind, client_Get. rewrite H. reflexivity.
Qed.

Lemma httpGet_bad_status url timeout w resp :
  remote w url (gets w) = GetResp resp ->
  StatusCode resp <> 200 ->
  httpGet url timeout w = Ret (None, None) (say "<nil>" (asked url timeout w)).
Proof.
  intros H Hs. unfold httpGet, bind, client_Get. rewrite H. cbn.
  apply Z.eqb_neq in Hs. rewrite Hs. reflexivity.
Qed.

Lemma httpGet_ok url timeout w data :
  remote w url (gets w) = GetResp {| StatusCode := 200; body := BodyOk data |} ->
  httpGet url timeout w = Ret (Some data, None) (asked url timeout w).
Proof.
  intros H. unfold httpGet, bind, client_Get. rewrite H. reflexivity.
Qed.

Lemma httpGet_body_error url timeout w msg :
  remote w url (gets w) = GetResp {| StatusCode := 200; body := BodyErr msg |} ->
  httpGet url timeout w = Ret (None, Some msg) (say msg (asked url timeout w)).
Proof.
  intros H. unfold httpGet, bind, client_Get. rewrite H. reflexivity.
Qed.

(** [httpGet] never panics, asks the server once and touches no file. *)
Lemma httpGet_returns url timeout w :
  exists b e w',
    httpGet url timeout w = Ret (b, e) w'
    /\ gets w' = S (gets w) /\ files w' = files w
    /\ wfault w' = wfault w /\ writes w' = writes w
    /\ remote w' = remote w.
Proof.
  destruct (remote w url (gets w)) as [msg | [code [data | msg]]] eqn:H.
  - rewrite (httpGet_transport_error _ _ _ _ H). eauto 10.
  - destruct (Z.eq_dec code 200) as [-> | Hne].
    + rewrite (httpGet_ok _ _ _ _ H). eauto 10.
    + rewrite (httpGet_bad_status _ _ _ _ H Hne). eauto 10.
  - destruct (Z.eq_dec code 200) as [-> | Hne].
    + rewrite (httpGet_body_error _ _ _ _ H). eauto 10.
    + rewrite (httpGet_bad_status _ _ _ _ H Hne). eauto 10.
Qed.

(** X1: [httpGet] reports no error exactly when the request got a
    response and either its status is not 200 or its body was read in
    full. *)
Lemma httpGet_nil_error_iff url timeout w :
  (exists b w', httpGet url timeout w = Ret (b, None) w')
  <-> exists resp,
        remote w url (gets w) = GetResp resp
        /\ (StatusCode resp <> 200 \/ exists data, body resp = BodyOk data).
Proof.
  split.
  - intros (b & w' & H).
    destruct (remote w url (gets w)) as [msg | [code [data | msg]]] eqn:R.
    + rewrite (httpGet_transport_error _ _ _ _ R) in H. discriminate.
    + eexists; split; [reflexivity | right; eauto].
    + destruct (Z.eq_dec code 200) as [-> | Hne].
      * rewrite (httpGet_body_error _ _ _ _ R) in H. discriminate.
      * eexists; split; [reflexivity | left; exact Hne].
  - intros ([code bd] & R & [Hne | [data Hd]]).
    + rewrite (httpGet_bad_status _ _ _ _ R Hne). eauto.
    + cbn in Hd. subst bd. destruct (Z.eq_dec code 200) as [-> | Hne].
      * rewrite (httpGet_ok _ _ _ _ R). eauto.
      * rewrite (httpGet_bad_status _ _ _ _ R Hne). eauto.
Qed.

(** C1 (code evaluated where it departs from the claim): a response
    with status 404 and no transport error is not reported as a fetch
    failure: [httpGet] returns the nil slice together with a nil error,
    after logging the nil error. *)
Theorem httpGet_404_reports_no_error :
  remote Samples.w_404 Samples.source 0 = Samples.status 404
  /\ httpGet Samples.source loadTimeout Samples.w_404
     = Ret (None, None)
           (say "<nil>" (asked Samples.source loadTimeout Samples.w_404)).
Proof. split; reflexivity. Qed.

End FetchSpec.

(** ** Bootstrap *)

Module BootSpec.
Import Go cache Props.

Lemma httpGet_files url timeout w r w1 :
  httpGet url timeout w = Ret r w1 -> files w1 = files w.
Proof.
  destruct (FetchSpec.httpGet_returns url timeout w)
    as (b & e & w' & -> & _ & Hf & _).
  intros [= _ <-]. exact Hf.
Qed.

(** The remote answer is taken whenever [httpGet] reports no error. *)
Lemma load_remote url fn w b w1 :
  httpGet url loadTimeout w = Ret (b, None) w1 ->
  load url fn w = Ret b w1.
Proof. intros H. unfold load, bind. rewrite H. reflexivity. Qed.

(** The fallback file is read when [httpGet] reports an error. *)
Lemma load_fallback url fn w b e w1 data :
  httpGet url loadTimeout w = Ret (b, Some e) w1 ->
  files w !! fn = Some data ->
  load url fn w
  = Ret (Some data) (emit (EReadFile fn) (say (try_local_msg url e) w1)).
Proof.
  intros H Hf. unfold load, bind. rewrite H. cbn.
  unfold ReadFile. cbn. rewrite (httpGet_files _ _ _ _ _ H), Hf. reflexivity.
Qed.


Lemma New_of_load url fn w b w1 :
  load url fn w = Ret b w1 ->
  New url fn w
  = Ret {| cache := {| filename := fn; url := url; content := b;
                       update := make_chan 1; close := make_chan 0 |};
           pc := Select1; tic := make_chan 1; returned := [] |} w1.
Proof. intros H. unfold New, bind. rewrite H. reflexivity. Qed.

(** With the source down and "local" on disk, the cache starts from the
    file. *)
Example New_falls_back_when_down :
  exists s w,
    New Samples.source Samples.fallback Samples.w_down_local = Ret s w
    /\ content (cache s) = Some (Samples.txt "local")
    /\ trace w = [EGet Samples.source loadTimeout; EReadFile Samples.fallback].
Proof. do 2 eexists. split; [vm_compute; reflexivity | split; reflexivity]. Qed.




(** C6 (code evaluated where it departs from the claim): the source
    answers 404 and the fallback file holds "local"; [New] does not read
    the file and returns a cache whose snapshot is the nil slice. *)
Theorem New_404_ignores_fallback :
  files Samples.w_404_local !! Samples.fallback = Some (Samples.txt "local")
  /\ exists s w,
       New Samples.source Samples.fallback Samples.w_404_local = Ret s w
       /\ content (cache s) = None
       /\ trace w = [EGet Samples.source loadTimeout].
Proof.
  split; [reflexivity |].
  do 2 eexists. split; [vm_compute; reflexivity | split; reflexivity].
Qed.

End BootSpec.

(** ** One round of the refresh loop *)

Module RefreshSpec.
Import Go cache Props.

Lemma fetch_replaces c w b w1 :
  httpGet (url c) loadTimeout w = Ret (b, None) w1 ->
  fetch c w = Ret (set_content c b, Some b) w1.
Proof. intros H. unfold fetch, bind. rewrite H. reflexivity. Qed.

Lemma fetch_keeps c w b e w1 :
  httpGet (url c) loadTimeout w = Ret (b, Some e) w1 ->
  fetch c w = Ret (c, None) w1.
Proof. intros H. unfold fetch, bind. rewrite H. reflexivity. Qed.

Lemma persist_stored c b w :
  wfault w (writes w) = None ->
  persist c b w
  = Ret tt (wrote (filename c) (data_of b) true
                  (EWriteFile (filename c) b 420) w).
Proof. intros H. unfold persist, bind, WriteFile. rewrite H. reflexivity. Qed.


Lemma exec_cons a acts s w :
  exec (a :: acts) s w
  = match step a s w with
    | Ret (Some s') w' => exec acts s' w'
    | Ret None w' => Ret None w'
    | Panic msg w' => Panic msg w'
    end.
Proof.
  cbn. unfold bind. destruct (step a s w) as [[s' | ] w' | msg w']; reflexivity.
Qed.

Lemma exec_app acts1 : forall acts2 s w,
  exec (acts1 ++ acts2) s w
  = match exec acts1 s w with
    | Ret (Some s') w' => exec acts2 s' w'
    | Ret None w' => Ret None w'
    | Panic msg w' => Panic msg w'
    end.
Proof.
  induction acts1 as [ | a acts1 IH]; intros acts2 s w.
  - reflexivity.
  - change ((a :: acts1) ++ acts2) with (a :: (acts1 ++ acts2)).
    rewrite !exec_cons.
    destruct (step a s w) as [[s' | ] w' | msg w']; auto.
Qed.

Lemma step_fetch s w :
  pc s = Fetch ->
  step BgRun s w
  = match fetch (cache s) w with
    | Ret (c, Some b) w' => Ret (Some (at_pc (with_cache s c) (Persist b))) w'
    | Ret (c, None) w' => Ret (Some (at_pc (with_cache s c) Select2)) w'
    | Panic msg w' => Panic msg w'
    end.
Proof.
  intros H. unfold step, goroutine. rewrite H. unfold bind.
  destruct (fetch (cache s) w) as [[c [b | ]] w' | msg w']; reflexivity.
Qed.

Lemma step_persist s w b :
  pc s = Persist b ->
  step BgRun s w
  = match persist (cache s) b w with
    | Ret _ w' => Ret (Some (at_pc s Select2)) w'
    | Panic msg w' => Panic msg w'
    end.
Proof.
  intros H. unfold step, goroutine. rewrite H. unfold bind.
  destruct (persist (cache s) b w) as [[] w' | msg w']; reflexivity.
Qed.

(** Callers and the ticker leave the world, the goroutine and the
    fields [filename], [url] and [content] alone. *)
Lemma outside_step_frame a s w s' w' :
  outside_action a = true ->
  step a s w = Ret (Some s') w' ->
  w' = w /\ pc s' = pc s
  /\ content (cache s') = content (cache s)
  /\ filename (cache s') = filename (cache s)
  /\ url (cache s') = url (cache s).
Proof.
  destruct a as [ | | | | | t]; try discriminate; intros _; cbn.
  - destruct (try_send (tic s) 0); intros [= <- <-]; auto.
  - unfold bind, Get. destruct (try_send (update (cache s)) 1);
      cbn; intros [= <- <-] || discriminate; auto.
  - unfold bind, Close. destruct (send (close (cache s)) t 1);
      cbn; intros [= <- <-] || discriminate; auto.
Qed.




End RefreshSpec.

(** ** Invariants of the channels *)

Module ChanSpec.
Import Go cache Props.

Lemma New_returns url fn w s w' :
  New url fn w = Ret s w' ->
  exists b,
    s = {| cache := {| filename := fn; url := url; content := b;
                       update := make_chan 1; close := make_chan 0 |};
           pc := Select1; tic := make_chan 1; returned := [] |}.
Proof.
  unfold New, bind. destruct (load url fn w) as [b w1 | msg w1]; [ | discriminate].
  intros [= <- _]. eauto.
Qed.

Lemma New_chans_ok url fn w s w' : New url fn w = Ret s w' -> chans_ok s.
Proof.
  intros H. destruct (New_returns _ _ _ _ _ H) as [b ->].
  unfold chans_ok. cbn. repeat split; lia.
Qed.

Lemma fetch_frame c w c' o w' :
  fetch c w = Ret (c', o) w' ->
  update c' = update c /\ close c' = close c
  /\ filename c' = filename c /\ url c' = url c
  /\ gets w' = S (gets w).
Proof.
  unfold fetch, bind.
  destruct (FetchSpec.httpGet_returns (url c) loadTimeout w)
    as (b & e & w1 & -> & Hg & _).
  destruct e; intros [= <- <- <-]; auto.
Qed.

Lemma persist_frame c b w :
  exists w', persist c b w = Ret tt w' /\ gets w' = gets w.
Proof.
  unfold persist, bind, WriteFile.
  destruct (wfault w (writes w)); eexists; split; reflexivity.
Qed.

Lemma step_chans_ok a s w s' w' :
  chans_ok s -> step a s w = Ret (Some s') w' -> chans_ok s'.
Proof.
  unfold chans_ok.
  intros ((Hcu & Hlu & Hqu) & (Hcc & Hbc) & (Hct & Hlt & Hqt & Hot) & Hpc).
  destruct a as [ | | | | | t]; unfold step, goroutine.
  - (* TimerFires *)
    unfold try_send. rewrite Hot, Hct.
    destruct (buf (tic s)) as [ | v [ | v' rest]] eqn:Hb; cbn;
      intros [= <- <-]; cbn; rewrite ?Hb; cbn; auto 10.
  - (* BgTic *)
    destruct (pc s) eqn:Hp; try (intros [= <-]; discriminate).
    destruct Hpc as [Hou Hoc].
    unfold try_recv. rewrite Hqt, Hot.
    destruct (buf (tic s)) as [ | v rest] eqn:Hb; cbn;
      [discriminate | intros [= <- <-]; cbn].
    cbn in Hlt. repeat split; auto; lia.
  - (* BgUpdate *)
    destruct (pc s) eqn:Hp; try (intros [= <-]; discriminate).
    destruct Hpc as [Hou Hoc].
    unfold try_recv. rewrite Hqu, Hou.
    destruct (buf (update (cache s))) as [ | v rest] eqn:Hb; cbn;
      [discriminate | intros [= <- <-]; cbn].
    cbn in Hlu. repeat split; auto; lia.
  - (* BgRun *)
    destruct (pc s) eqn:Hp; try (intros [= <-]; discriminate).
    + (* Fetch *)
      unfold bind. destruct (fetch (cache s) w) as [[c o] w1 | ] eqn:Hf;
        [ | discriminate].
      destruct (fetch_frame _ _ _ _ _ Hf) as (Hu & Hc & _).
      intros [= <- <-]; cbn. rewrite Hu, Hc.
      destruct o; auto 10.
    + (* Persist *)
      unfold bind. destruct (persist_frame (cache s) b w) as (w1 & -> & _).
      intros [= <- <-]; cbn. auto 10.
    + (* Select2 *)
      destruct Hpc as [Hou Hoc].
      unfold try_recv. rewrite Hbc, Hoc.
      destruct (sendq (close (cache s))) as [ | [t v] q] eqn:Hq; cbn;
        intros [= <- <-]; cbn; auto 10.
    + (* CloseUpdate *)
      destruct Hpc as [Hou Hoc].
      unfold close_chan. rewrite Hou, Hqu. cbn.
      intros [= <- <-]; cbn. auto 10.
    + (* CloseClose *)
      destruct Hpc as [Hou Hoc].
      unfold close_chan. rewrite Hoc.
      destruct (sendq (close (cache s))) as [ | [t v] q] eqn:Hq; cbn;
        [ | discriminate].
      intros [= <- <-]; cbn. auto 10.
  - (* CallGet *)
    unfold bind, Get, try_send. rewrite Hcu.
    destruct (closed (update (cache s))) eqn:Hou; [discriminate | ].
    destruct (buf (update (cache s))) as [ | v [ | v' rest]] eqn:Hb; cbn;
      intros [= <- <-]; cbn; rewrite ?Hb, ?Hou; cbn; auto 10.
  - (* CallClose *)
    unfold bind, Close, send, try_send. rewrite Hcc, Hbc.
    destruct (closed (close (cache s))) eqn:Hoc; [discriminate | ].
    cbn. intros [= <- <-]; cbn. rewrite ?Hoc. auto 10.
Qed.

Lemma exec_chans_ok acts : forall s w s' w',
  chans_ok s -> exec acts s w = Ret (Some s') w' -> chans_ok s'.
Proof.
  induction acts as [ | a acts IH]; intros s w s' w' Hok H.
  - injection H as <- <-. exact Hok.
  - rewrite RefreshSpec.exec_cons in H.
    destruct (step a s w) as [[s1 | ] w1 | ] eqn:Hs; try discriminate.
    eauto using step_chans_ok.
Qed.

Lemma reachable_chans_ok s w : reachable s w -> chans_ok s.
Proof.
  intros (url & fn & w0 & s0 & w1 & acts & HN & HE).
  eauto using exec_chans_ok, New_chans_ok.
Qed.

Lemma reachable_step a s w s' w' :
  reachable s w -> step a s w = Ret (Some s') w' -> reachable s' w'.
Proof.
  intros (url & fn & w0 & s0 & w1 & acts & HN & HE) Hs.
  exists url, fn, w0, s0, w1, (acts ++ [a]). split; [exact HN | ].
  rewrite RefreshSpec.exec_app, HE, RefreshSpec.exec_cons, Hs. reflexivity.
Qed.

Lemma reachable_exec acts : forall s w s' w',
  reachable s w -> exec acts s w = Ret (Some s') w' -> reachable s' w'.
Proof.
  induction acts as [ | a acts IH]; intros s w s' w' Hr H.
  - injection H as <- <-. exact Hr.
  - rewrite RefreshSpec.exec_cons in H.
    destruct (step a s w) as [[s1 | ] w1 | ] eqn:Hs; try discriminate.
    eauto using reachable_step.
Qed.

End ChanSpec.

(** ** Shutdown *)

Module ShutdownSpec.
Import Go cache Props.

Lemma run_reachable acts w s w' :
  Samples.run acts w = Ret (Some s) w' -> reachable s w'.
Proof.
  unfold Samples.run, bind.
  destruct (New Samples.source Samples.fallback w) as [s0 w0 | ] eqn:HN;
    [ | discriminate].
  intros HE. exists Samples.source, Samples.fallback, w, s0, w0, acts. auto.
Qed.

(** C10: once the goroutine has returned, both channels are closed and
    [Get] panics on its send instead of returning the snapshot. *)
Theorem Get_after_shutdown_panics s w :
  reachable s w ->
  pc s = Exited ->
  Get (cache s) w = Panic "send on closed channel" w
  /\ ~ returns (Get (cache s) w).
Proof.
  intros Hr Hp.
  destruct (ChanSpec.reachable_chans_ok _ _ Hr) as (_ & _ & _ & Hpc).
  rewrite Hp in Hpc. destruct Hpc as [Hu _].
  assert (HG : Get (cache s) w = Panic "send on closed channel" w).
  { unfold Get, try_send. rewrite Hu. reflexivity. }
  split; [exact HG | ].
  intros (r & w' & H). rewrite HG in H. discriminate.
Qed.

Lemma Get_after_shutdown_panics_witness :
  let s := Samples.state_after (Samples.shutdown 1) Samples.w_down_local in
  let w := Samples.world_after (Samples.shutdown 1) Samples.w_down_local in
  Get (cache s) w = Panic "send on closed channel" w
  /\ ~ returns (Get (cache s) w).
Proof.
  apply (Get_after_shutdown_panics
           (Samples.state_after (Samples.shutdown 1) Samples.w_down_local)
           (Samples.world_after (Samples.shutdown 1) Samples.w_down_local)).
  - apply (run_reachable (Samples.shutdown 1) Samples.w_down_local).
    vm_compute. reflexivity.
  - vm_compute. reflexivity.
Defined.

(** The goroutine is past its shutdown check exactly when some [Close]
    call has returned, that is, has been accepted. *)
Lemma step_accepted a s w s' w' :
  chans_ok s ->
  (accepted (pc s) = true <-> returned s <> []) ->
  step a s w = Ret (Some s') w' ->
  (accepted (pc s') = true <-> returned s' <> []).
Proof.
  intros ((Hcu & Hlu & Hqu) & (Hcc & Hbc) & (Hct & Hlt & Hqt & Hot) & Hpc) Hinv.
  destruct a as [ | | | | | t]; unfold step, goroutine.
  - destruct (try_send (tic s) 0); intros [= <- <-]; exact Hinv.
  - destruct (pc s) eqn:Hp; try discriminate.
    unfold try_recv. rewrite Hqt, Hot.
    destruct (buf (tic s)); [discriminate | intros [= <- <-]; exact Hinv].
  - destruct (pc s) eqn:Hp; try discriminate.
    unfold try_recv. rewrite Hqu. destruct Hpc as [-> _].
    destruct (buf (update (cache s))); [discriminate | intros [= <- <-]; exact Hinv].
  - destruct (pc s) eqn:Hp; try discriminate.
    + unfold bind. destruct (fetch (cache s) w) as [[c [b | ]] w1 | ];
        try discriminate; intros [= <- <-]; exact Hinv.
    + unfold bind. destruct (ChanSpec.persist_frame (cache s) b w) as (w1 & -> & _).
      intros [= <- <-]; exact Hinv.
    + unfold try_recv. rewrite Hbc. destruct Hpc as [_ ->].
      destruct (sendq (close (cache s))) as [ | [t v] q];
        intros [= <- <-]; cbn; [exact Hinv | ].
      split; [intros _ | reflexivity].
      destruct (returned s); discriminate.
    + destruct (close_chan (update (cache s))) as [ | ch [ | t1 woken]];
        try discriminate; intros [= <- <-]; exact Hinv.
    + destruct (close_chan (close (cache s))) as [ | ch [ | t1 woken]];
        try discriminate; intros [= <- <-]; exact Hinv.
  - unfold bind, Get. destruct (try_send (update (cache s)) 1);
      try discriminate; intros [= <- <-]; exact Hinv.
  - unfold bind, Close. destruct (send (close (cache s)) t 1);
      try discriminate; intros [= <- <-]; exact Hinv.
Qed.

(** X17: the goroutine leaves its loop only on request.  In every
    reachable state it is past its shutdown check (about to close the
    channels, or gone) exactly when some caller's [Close] has returned. *)
Lemma accepted_iff_returned s w :
  reachable s w -> (accepted (pc s) = true <-> returned s <> []).
Proof.
  intros (url & fn & w0 & s0 & w1 & acts & HN & HE).
  pose proof (ChanSpec.New_chans_ok _ _ _ _ _ HN) as Hok.
  assert (H0 : accepted (pc s0) = true <-> returned s0 <> []).
  { destruct (ChanSpec.New_returns _ _ _ _ _ HN) as [b ->]. cbn.
    split; [discriminate | intros H; destruct H; reflexivity]. }
  clear HN. revert s0 w1 Hok H0 HE.
  induction acts as [ | a acts IH]; intros s0 w1 Hok H0 HE.
  - injection HE as <- <-. exact H0.
  - rewrite RefreshSpec.exec_cons in HE.
    destruct (step a s0 w1) as [[s1 | ] w2 | ] eqn:Hs; try discriminate.
    apply (IH s1 w2); eauto using ChanSpec.step_chans_ok, step_accepted.
Qed.

(** C4 (as stated, refuted): caller 1 shuts the cache down, the
    goroutine accepts the request, closes both channels and returns;
    caller 1 then calls [Close] again and that call panics. *)
Lemma second_Close_panics_example :
  exists s w,
    Samples.run (Samples.shutdown 1) Samples.w_down_local = Ret (Some s) w
    /\ returned s = [1%nat]
    /\ pc s = Exited
    /\ step (CallClose 1) s w = Panic "send on closed channel" w
    /\ ~ returns (Close 1 (cache s) w).
Proof.
  do 2 eexists. split; [vm_compute; reflexivity | ].
  repeat split.
  intros (c & w' & H). vm_compute in H. discriminate.
Qed.

Lemma step_parked a s w s' w' t :
  accepted (pc s) = true ->
  parked t s ->
  step a s w = Ret (Some s') w' ->
  accepted (pc s') = true /\ parked t s' /\ returned s' = returned s.
Proof.
  unfold parked. intros Hacc Hin.
  destruct a as [ | | | | | t']; unfold step, goroutine.
  - destruct (try_send (tic s) 0); intros [= <- <-]; auto.
  - destruct (pc s); try discriminate; intros [= <-]; discriminate.
  - destruct (pc s); try discriminate; intros [= <-]; discriminate.
  - destruct (pc s) eqn:Hp; try discriminate.
    + destruct (close_chan (update (cache s))) as [ | ch [ | t1 woken]];
        try discriminate.
      intros [= <- <-]. cbn. auto.
    + unfold close_chan. destruct (closed (close (cache s))); [discriminate | ].
      destruct (sendq (close (cache s))) as [ | [t1 v1] q]; [destruct Hin | ].
      discriminate.
  - unfold bind, Get. destruct (try_send (update (cache s)) 1);
      try discriminate; intros [= <- <-]; auto.
  - unfold bind, Close, send, try_send.
    destruct (closed (close (cache s))); [discriminate | ].
    destruct (length (buf (close (cache s))) <? cap (close (cache s)))%nat;
      intros [= <- <-]; cbn; repeat split; auto using in_or_app.
Qed.

Lemma exec_parked acts : forall s w s' w' t,
  accepted (pc s) = true ->
  parked t s ->
  exec acts s w = Ret (Some s') w' ->
  accepted (pc s') = true /\ parked t s' /\ returned s' = returned s.
Proof.
  induction acts as [ | a acts IH]; intros s w s' w' t Hacc Hin H.
  - injection H as <- <-. auto.
  - rewrite RefreshSpec.exec_cons in H.
    destruct (step a s w) as [[s1 | ] w1 | ] eqn:Hs; try discriminate.
    destruct (step_parked _ _ _ _ _ _ Hacc Hin Hs) as (Hacc1 & Hin1 & Hr1).
    destruct (IH _ _ _ _ _ Hacc1 Hin1 H) as (? & ? & ?).
    repeat split; congruence.
Qed.

(** What entering [Close] does while the shutdown channel is open. *)
Lemma Close_parks t s w :
  chans_ok s ->
  closed (close (cache s)) = false ->
  exists s1,
    step (CallClose t) s w = Ret (Some s1) w
    /\ pc s1 = pc s /\ returned s1 = returned s
    /\ update (cache s1) = update (cache s)
    /\ closed (close (cache s1)) = false
    /\ parked t s1.
Proof.
  intros (_ & (Hcc & Hbc) & _) Hoc.
  unfold step, bind, Close, send, try_send, parked.
  rewrite Hoc, Hcc, Hbc. cbn.
  eexists. split; [reflexivity | ]. cbn.
  repeat split; auto. apply in_or_app. right. left. reflexivity.
Qed.

(** The goroutine's [close(c.close)] with a sender parked: the sender
    panics. *)
Lemma CloseClose_panics t s w :
  pc s = CloseClose ->
  closed (close (cache s)) = false ->
  parked t s ->
  step BgRun s w = Panic "send on closed channel" w.
Proof.
  unfold parked. intros Hp Hoc Hin.
  unfold step, goroutine, close_chan. rewrite Hp, Hoc.
  destruct (sendq (close (cache s))) as [ | [t1 v1] q]; [destruct Hin | ].
  reflexivity.
Qed.

(** C4 (amended): once the goroutine has accepted a shutdown request, a
    further [Close] never returns.  It panics at once when the goroutine
    has already closed the shutdown channel; otherwise the caller stays
    parked, whatever else happens, and panics as soon as the goroutine,
    at most two statements later, closes the channel. *)
Theorem second_Close_never_returns s w t :
  reachable s w ->
  accepted (pc s) = true ->
  (exists k,
      (k <= 2)%nat
      /\ exec (CallClose t :: repeat BgRun k) s w
         = Panic "send on closed channel" w)
  /\ (forall acts s' w',
         exec (CallClose t :: acts) s w = Ret (Some s') w' ->
         parked t s' /\ returned s' = returned s).
Proof.
  intros Hr Hacc.
  pose proof (ChanSpec.reachable_chans_ok _ _ Hr) as Hok.
  destruct Hok as (Hu & Hc & Ht & Hpc).
  assert (Hok : chans_ok s) by (unfold chans_ok; auto).
  destruct (pc s) eqn:Hp; try discriminate.
  - (* CloseUpdate *)
    destruct Hpc as [Hou Hoc].
    destruct (Close_parks t s w Hok Hoc)
      as (s1 & Hs1 & Hp1 & Hr1 & Hu1 & Hoc1 & Hin1).
    split.
    + exists 2%nat. split; [lia | ].
      cbn [repeat]. rewrite RefreshSpec.exec_cons, Hs1, RefreshSpec.exec_cons.
      assert (Hs2 : step BgRun s1 w
                    = Ret (Some (at_pc (with_cache s1
                                   (set_update (cache s1)
                                      {| buf := buf (update (cache s));
                                         cap := cap (update (cache s));
                                         closed := true; sendq := [] |}))
                                   CloseClose)) w).
      { unfold step, goroutine, close_chan. rewrite Hp1, Hp, Hu1, Hou.
        destruct Hu as (_ & _ & ->). reflexivity. }
      rewrite Hs2, RefreshSpec.exec_cons.
      rewrite (CloseClose_panics t); auto.
    + intros acts s' w' H. rewrite RefreshSpec.exec_cons, Hs1 in H.
      rewrite <- Hr1.
      apply (exec_parked acts s1 w s' w' t); auto. rewrite Hp1, Hp. reflexivity.
  - (* CloseClose *)
    destruct Hpc as [Hou Hoc].
    destruct (Close_parks t s w Hok Hoc)
      as (s1 & Hs1 & Hp1 & Hr1 & Hu1 & Hoc1 & Hin1).
    split.
    + exists 1%nat. split; [lia | ].
      cbn [repeat]. rewrite RefreshSpec.exec_cons, Hs1, RefreshSpec.exec_cons.
      rewrite (CloseClose_panics t); auto. congruence.
    + intros acts s' w' H. rewrite RefreshSpec.exec_cons, Hs1 in H.
      rewrite <- Hr1.
      apply (exec_parked acts s1 w s' w' t); auto. rewrite Hp1, Hp. reflexivity.
  - (* Exited *)
    destruct Hpc as [Hou Hoc].
    assert (Hs : step (CallClose t) s w = Panic "send on closed channel" w).
    { unfold step, bind, Close, send, try_send. rewrite Hoc. reflexivity. }
    split.
    + exists 0%nat. split; [lia | ].
      cbn [repeat]. rewrite RefreshSpec.exec_cons, Hs. reflexivity.
    + intros acts s' w' H. rewrite RefreshSpec.exec_cons, Hs in H. discriminate.
Qed.

Lemma second_Close_never_returns_witness :
  let s := Samples.state_after (Samples.accepting 1) Samples.w_down_local in
  let w := Samples.world_after (Samples.accepting 1) Samples.w_down_local in
  (exists k,
      (k <= 2)%nat
      /\ exec (CallClose 1 :: repeat BgRun k) s w
         = Panic "send on closed channel" w)
  /\ (forall acts s' w',
         exec (CallClose 1 :: acts) s w = Ret (Some s') w' ->
         parked 1 s' /\ returned s' = returned s).
Proof.
  apply (second_Close_never_returns
           (Samples.state_after (Samples.accepting 1) Samples.w_down_local)
           (Samples.world_after (Samples.accepting 1) Samples.w_down_local)
           1%nat).
  - apply (run_reachable (Samples.accepting 1) Samples.w_down_local).
    vm_compute. reflexivity.
  - vm_compute. reflexivity.
Defined.

End ShutdownSpec.

(** ** The coalesced refresh request *)

Module CoalesceSpec.
Import Go cache Props.

Lemma Get_requests c w :
  cap (update c) = 1%nat ->
  (length (buf (update c)) <= 1)%nat ->
  closed (update c) = false ->
  Get c w = Ret (content c, requested c) w.
Proof.
  intros Hc Hl Ho. unfold Get, try_send, requested. rewrite Ho, Hc.
  destruct (buf (update c)) as [ | v [ | v' rest]]; cbn in *;
    reflexivity || lia.
Qed.

Lemma requested_pending c :
  (length (buf (update c)) <= 1)%nat ->
  length (buf (update (requested c))) = 1%nat.
Proof.
  unfold requested.
  destruct (buf (update c)) as [ | v [ | v' rest]] eqn:Hb; cbn;
    rewrite ?Hb; cbn; lia.
Qed.

Lemma requested_frame c :
  cap (update (requested c)) = cap (update c)
  /\ closed (update (requested c)) = closed (update c)
  /\ content (requested c) = content c.
Proof. unfold requested. destruct (buf (update c)); auto. Qed.

Lemma requested_again c : requested (requested c) = requested c.
Proof.
  unfold requested at 1.
  destruct (buf (update (requested c))) eqn:Hb; [ | reflexivity].
  unfold requested in Hb. destruct (buf (update c)) eqn:Hc; cbn in Hb; congruence.
Qed.

(** A burst of calls on a cache with a request pending changes nothing. *)
Lemma burst_pending n : forall s w,
  cap (update (cache s)) = 1%nat ->
  closed (update (cache s)) = false ->
  (length (buf (update (cache s))) <= 1)%nat ->
  exec (repeat CallGet n) (with_cache s (requested (cache s))) w
  = Ret (Some (with_cache s (requested (cache s)))) w.
Proof.
  induction n as [ | n IH]; intros s w Hc Ho Hl; [reflexivity | ].
  cbn [repeat]. rewrite RefreshSpec.exec_cons.
  destruct (requested_frame (cache s)) as (Hc' & Ho' & _).
  unfold step, bind. cbn [cache with_cache].
  rewrite Get_requests, requested_again.
  - apply (IH s w); assumption.
  - congruence.
  - rewrite requested_pending by assumption. lia.
  - congruence.
Qed.

(** Any burst amounts to a single call. *)
Lemma burst_open n s w :
  chans_ok s ->
  closed (update (cache s)) = false ->
  exec (repeat CallGet (S n)) s w
  = Ret (Some (with_cache s (requested (cache s)))) w.
Proof.
  intros ((Hc & Hl & _) & _) Ho.
  cbn [repeat]. rewrite RefreshSpec.exec_cons.
  unfold step, bind. rewrite Get_requests by assumption.
  apply burst_pending; assumption.
Qed.

(** Each fetch uses up a wake-up: what the goroutine has fetched plus
    what it is committed or invited to fetch never grows by its own
    doing. *)
Lemma goroutine_step_budget a s w s' w' :
  chans_ok s ->
  goroutine_action a = true ->
  step a s w = Ret (Some s') w' ->
  (gets w' + inflight s' + pending s' <= gets w + inflight s + pending s)%nat.
Proof.
  intros ((Hcu & Hlu & Hqu) & (Hcc & Hbc) & (Hct & Hlt & Hqt & Hot) & Hpc).
  unfold inflight, pending.
  destruct a as [ | | | | | t]; try discriminate; intros _;
    unfold step, goroutine.
  - (* BgTic *)
    destruct (pc s) eqn:Hp; try discriminate.
    unfold try_recv. rewrite Hqt, Hot.
    destruct (buf (tic s)) as [ | v rest] eqn:Hb; [discriminate | ].
    intros [= <- <-]; cbn. lia.
  - (* BgUpdate *)
    destruct (pc s) eqn:Hp; try discriminate.
    destruct Hpc as [Hou Hoc].
    unfold try_recv. rewrite Hqu, Hou.
    destruct (buf (update (cache s))) as [ | v rest] eqn:Hb; [discriminate | ].
    intros [= <- <-]; cbn. lia.
  - (* BgRun *)
    destruct (pc s) eqn:Hp; try discriminate.
    + unfold bind. destruct (fetch (cache s) w) as [[c o] w1 | ] eqn:Hf;
        [ | discriminate].
      destruct (ChanSpec.fetch_frame _ _ _ _ _ Hf) as (Hu & _ & _ & _ & Hg).
      intros [= <- <-]; cbn. rewrite Hu, Hg. destruct o; lia.
    + unfold bind.
      destruct (ChanSpec.persist_frame (cache s) b w) as (w1 & -> & Hg).
      intros [= <- <-]; cbn. lia.
    + destruct (try_recv (close (cache s))) as [v o ch | | ];
        intros [= <- <-]; cbn; lia.
    + destruct (close_chan (update (cache s))) as [ | ch [ | t1 woken]] eqn:Hcl;
        try discriminate.
      intros [= <- <-]; cbn.
      unfold close_chan in Hcl. destruct (closed (update (cache s)));
        [discriminate | ].
      injection Hcl as <- _. cbn. lia.
    + destruct (close_chan (close (cache s))) as [ | ch [ | t1 woken]];
        try discriminate.
      intros [= <- <-]; cbn. lia.
Qed.

Lemma goroutine_exec_budget acts : forall s w s' w',
  chans_ok s ->
  Forall (fun a => goroutine_action a = true) acts ->
  exec acts s w = Ret (Some s') w' ->
  (gets w' + inflight s' + pending s' <= gets w + inflight s + pending s)%nat.
Proof.
  induction acts as [ | a acts IH]; intros s w s' w' Hok Hall H.
  - injection H as <- <-. lia.
  - inversion Hall as [ | ? ? Ha Hrest]; subst.
    rewrite RefreshSpec.exec_cons in H.
    destruct (step a s w) as [[s1 | ] w1 | ] eqn:Hs; try discriminate.
    pose proof (goroutine_step_budget _ _ _ _ _ Hok Ha Hs).
    pose proof (IH _ _ _ _ (ChanSpec.step_chans_ok _ _ _ _ _ Hok Hs) Hrest H).
    lia.
Qed.

(** C7: on a running cache [Get] returns at once with the snapshot; the
    request buffer never holds more than one value; after one call a
    request is pending and any burst of further calls changes nothing;
    and after a burst of any length the goroutine, left to itself with no
    new tick, fetches at most once beyond the fetch it is committed to and
    the tick already waiting. *)
Theorem Get_coalesces s w n acts s' w' :
  reachable s w ->
  closed (update (cache s)) = false ->
  Forall (fun a => goroutine_action a = true) acts ->
  exec (repeat CallGet n ++ acts) s w = Ret (Some s') w' ->
  (length (buf (update (cache s))) <= 1)%nat
  /\ Get (cache s) w = Ret (content (cache s), requested (cache s)) w
  /\ length (buf (update (requested (cache s)))) = 1%nat
  /\ exec (repeat CallGet n) (with_cache s (requested (cache s))) w
     = Ret (Some (with_cache s (requested (cache s)))) w
  /\ (gets w' <= gets w + inflight s + length (buf (tic s)) + 1)%nat.
Proof.
  intros Hr Ho Hall H.
  pose proof (ChanSpec.reachable_chans_ok _ _ Hr) as Hok.
  destruct Hok as ((Hcu & Hlu & Hqu) & Hrest).
  assert (Hok : chans_ok s) by (unfold chans_ok; auto).
  split; [exact Hlu | ].
  split; [apply Get_requests; assumption | ].
  split; [apply requested_pending; assumption | ].
  split; [apply burst_pending; assumption | ].
  rewrite RefreshSpec.exec_app in H.
  destruct n as [ | n].
  - cbn in H.
    pose proof (goroutine_exec_budget _ _ _ _ _ Hok Hall H) as Hb.
    unfold pending in Hb. lia.
  - rewrite (burst_open n s w Hok Ho) in H.
    assert (Hs1 : exec (repeat CallGet (S n)) s w
                  = Ret (Some (with_cache s (requested (cache s)))) w)
      by (apply burst_open; assumption).
    pose proof (ChanSpec.exec_chans_ok _ _ _ _ _ Hok Hs1) as Hok1.
    pose proof (goroutine_exec_budget _ _ _ _ _ Hok1 Hall H) as Hb.
    unfold pending, inflight in *. cbn [cache with_cache pc tic] in Hb.
    rewrite (requested_pending (cache s) Hlu) in Hb. lia.
Qed.

Lemma Get_coalesces_witness :
  let acts := [BgUpdate; BgRun; BgRun; BgRun] in
  let s := Samples.state_after [CallGet] Samples.w_v1 in
  let w := Samples.world_after [CallGet] Samples.w_v1 in
  let w' := Samples.world_after (CallGet :: repeat CallGet 100 ++ acts)
                                Samples.w_v1 in
  (length (buf (update (cache s))) <= 1)%nat
  /\ Get (cache s) w = Ret (content (cache s), requested (cache s)) w
  /\ length (buf (update (requested (cache s)))) = 1%nat
  /\ exec (repeat CallGet 100) (with_cache s (requested (cache s))) w
     = Ret (Some (with_cache s (requested (cache s)))) w
  /\ (gets w' <= gets w + inflight s + length (buf (tic s)) + 1)%nat.
Proof.
  apply (Get_coalesces
           (Samples.state_after [CallGet] Samples.w_v1)
           (Samples.world_after [CallGet] Samples.w_v1)
           100
           [BgUpdate; BgRun; BgRun; BgRun]
           (Samples.state_after
              (CallGet :: repeat CallGet 100 ++ [BgUpdate; BgRun; BgRun; BgRun])
              Samples.w_v1)).
  - apply (ShutdownSpec.run_reachable [CallGet] Samples.w_v1).
    vm_compute. reflexivity.
  - vm_compute. reflexivity.
  - repeat constructor.
  - vm_compute. reflexivity.
Defined.

End CoalesceSpec.

(** ** Where a response other than 200 leads *)

Module StaleSpec.
Import Go cache Props.

Lemma httpGet_only_200 url timeout w b e w' :
  only_200 w ->
  httpGet url timeout w = Ret (b, e) w' ->
  remote w' = remote w /\ (e = None -> b <> None).
Proof.
  intros H200.
  destruct (remote w url (gets w)) as [msg | [code [data | msg]]] eqn:R.
  - rewrite (FetchSpec.httpGet_transport_error _ _ _ _ R).
    intros [= <- <- <-]. split; [reflexivity | discriminate].
  - pose proof (H200 _ _ _ R) as Hc. cbn in Hc. subst code.
    rewrite (FetchSpec.httpGet_ok _ _ _ _ R).
    intros [= <- <- <-]. split; [reflexivity | discriminate].
  - pose proof (H200 _ _ _ R) as Hc. cbn in Hc. subst code.
    rewrite (FetchSpec.httpGet_body_error _ _ _ _ R).
    intros [= <- <- <-]. split; [reflexivity | discriminate].
Qed.

Lemma New_only_200 url fn w s w' :
  only_200 w ->
  New url fn w = Ret s w' ->
  remote w' = remote w /\ content (cache s) <> None.
Proof.
  intros H200. unfold New, load, bind.
  destruct (httpGet url loadTimeout w) as [[b e] w1 | ] eqn:HG; [ | discriminate].
  destruct (httpGet_only_200 _ _ _ _ _ _ H200 HG) as [Hr Hb].
  destruct e as [msg | ].
  - cbn. unfold ReadFile. cbn.
    destruct (files w1 !! fn) as [data | ]; cbn; [ | discriminate].
    intros [= <- <-]. cbn. split; [exact Hr | discriminate].
  - intros [= <- <-]. cbn. auto.
Qed.

Lemma step_only_200 a s w s' w' :
  only_200 w ->
  content (cache s) <> None ->
  step a s w = Ret (Some s') w' ->
  remote w' = remote w /\ content (cache s') <> None.
Proof.
  intros H200 Hc Hs.
  destruct (goroutine_action a) eqn:Ha.
  - destruct a as [ | | | | | t]; try discriminate; revert Hs;
      unfold step, goroutine.
    + destruct (pc s); try discriminate.
      destruct (try_recv (tic s)); try discriminate; intros [= <- <-]; auto.
    + destruct (pc s); try discriminate.
      destruct (try_recv (update (cache s))) as [v o ch | | ];
        try discriminate; intros [= <- <-]; auto.
    + destruct (pc s) eqn:Hp; try discriminate.
      * unfold fetch, bind.
        destruct (httpGet (url (cache s)) loadTimeout w) as [[b e] w1 | ] eqn:HG;
          cbn; [ | discriminate].
        destruct (httpGet_only_200 _ _ _ _ _ _ H200 HG) as [Hr Hb].
        destruct e; cbn; intros [= <- <-]; cbn; auto.
      * unfold persist, bind, WriteFile.
        destruct (wfault w (writes w)); intros [= <- <-]; auto.
      * destruct (try_recv (close (cache s))) as [v o ch | | ];
          intros [= <- <-]; auto.
      * destruct (close_chan (update (cache s))) as [ | ch [ | t1 woken]];
          try discriminate; intros [= <- <-]; auto.
      * destruct (close_chan (close (cache s))) as [ | ch [ | t1 woken]];
          try discriminate; intros [= <- <-]; auto.
  - assert (Ho : outside_action a = true) by (unfold outside_action; rewrite Ha; reflexivity).
    destruct (RefreshSpec.outside_step_frame _ _ _ _ _ Ho Hs) as (-> & _ & -> & _).
    auto.
Qed.

(** Apart from responses whose status is not 200, the snapshot of a
    cache that was built is never the nil slice. *)
Lemma snapshot_never_nil_with_only_200 acts : forall s w s' w',
  only_200 w ->
  content (cache s) <> None ->
  exec acts s w = Ret (Some s') w' ->
  content (cache s') <> None.
Proof.
  induction acts as [ | a acts IH]; intros s w s' w' H200 Hc H.
  - injection H as <- <-. exact Hc.
  - rewrite RefreshSpec.exec_cons in H.
    destruct (step a s w) as [[s1 | ] w1 | ] eqn:Hs; try discriminate.
    destruct (step_only_200 _ _ _ _ _ H200 Hc Hs) as [Hr Hc1].
    apply (IH s1 w1 s' w'); auto.
    unfold only_200 in *. rewrite Hr. exact H200.
Qed.

(** C5 (code evaluated where it departs from the claim): the cache
    holds "v1" and the next fetch is answered 404.  The round replaces the
    snapshot with the nil slice and goes on to write the empty content to
    the fallback file. *)
Theorem refresh_404_replaces_snapshot_with_nil :
  let s := Samples.state_after [TimerFires; BgTic] Samples.w_v1_then_404 in
  let w := Samples.world_after [TimerFires; BgTic] Samples.w_v1_then_404 in
  (pc s = Fetch
   /\ content (cache s) = Some (Samples.txt "v1")
   /\ remote w (url (cache s)) (gets w) = Samples.status 404)
  /\ exists s1 w1,
       step BgRun s w = Ret (Some s1) w1
       /\ content (cache s1) = None
       /\ pc s1 = Persist None
       /\ exists w2,
            step BgRun s1 w1 = Ret (Some (at_pc s1 Select2)) w2
            /\ files w2 !! filename (cache s) = Some [].
Proof.
  split; [repeat split | ].
  do 2 eexists. split; [vm_compute; reflexivity | ].
  split; [reflexivity | split; [reflexivity | ] ].
  eexists. split; [vm_compute; reflexivity | reflexivity].
Qed.

(** C2 (code evaluated where it departs from the claim): construction
    succeeds with snapshot "v1"; the next fetch is answered 404; from then
    on [Get] returns the nil slice. *)
Theorem Get_returns_nil_after_404 :
  exists s0 w0 s w,
    New Samples.source Samples.fallback Samples.w_v1_then_404 = Ret s0 w0
    /\ content (cache s0) = Some (Samples.txt "v1")
    /\ exec Samples.tick_fetch s0 w0 = Ret (Some s) w
    /\ Get (cache s) w = Ret (None, requested (cache s)) w.
Proof.
  do 4 eexists. split; [vm_compute; reflexivity | ].
  split; [reflexivity | ].
  split; [vm_compute; reflexivity | reflexivity].
Qed.

End StaleSpec.

(** ** Further facts: fetching and bootstrap *)

Module IoFacts.
Import Go cache Props.

(** X2: whatever [httpGet] returns, its body is non-nil exactly for a
    response with status 200 whose body was read in full, and the body is
    nil whenever an error is returned. *)
Theorem httpGet_body url timeout w b e w' :
  httpGet url timeout w = Ret (b, e) w' ->
  (forall data,
      b = Some data
      <-> remote w url (gets w)
          = GetResp {| StatusCode := 200; body := BodyOk data |})
  /\ (e <> None -> b = None).
Proof.
  destruct (remote w url (gets w)) as [msg | [code [data0 | msg]]] eqn:R.
  - rewrite (FetchSpec.httpGet_transport_error _ _ _ _ R).
    intros [= <- <- <-]. split; [ | reflexivity].
    intros data. split; discriminate.
  - destruct (Z.eq_dec code 200) as [-> | Hne].
    + rewrite (FetchSpec.httpGet_ok _ _ _ _ R).
      intros [= <- <- <-]. split; [ | intros H; destruct H; reflexivity].
      intros data. split; intros [= ->]; reflexivity.
    + rewrite (FetchSpec.httpGet_bad_status _ _ _ _ R Hne).
      intros [= <- <- <-]. split; [ | reflexivity].
      intros data. split; [discriminate | ].
      intros [= Hc _]. contradiction.
  - destruct (Z.eq_dec code 200) as [-> | Hne].
    + rewrite (FetchSpec.httpGet_body_error _ _ _ _ R).
      intros [= <- <- <-]. split; [ | reflexivity].
      intros data. split; discriminate.
    + rewrite (FetchSpec.httpGet_bad_status _ _ _ _ R Hne).
      intros [= <- <- <-]. split; [ | reflexivity].
      intros data. split; discriminate.
Qed.

Lemma httpGet_body_witness :
  (forall data,
      Some (Samples.txt "v1") = Some data
      <-> remote Samples.w_v1 Samples.source (gets Samples.w_v1)
          = GetResp {| StatusCode := 200; body := BodyOk data |})
  /\ (@None string <> None -> Some (Samples.txt "v1") = None).
Proof.
  apply (httpGet_body Samples.source loadTimeout Samples.w_v1
           (Some (Samples.txt "v1")) None
           (asked Samples.source loadTimeout Samples.w_v1)).
  reflexivity.
Defined.

(** X3: whether it returns or panics, [New] sends exactly one GET, to
    [url] with the load timeout, reads the fallback file at most once and
    only after that GET, and never writes to disk. *)
Theorem New_footprint url fn w :
  let w' := world_of (New url fn w) in
  gets w' = S (gets w)
  /\ files w' = files w
  /\ writes w' = writes w
  /\ (trace w' = trace w ++ [EGet url loadTimeout]
      \/ trace w' = trace w ++ [EGet url loadTimeout; EReadFile fn]).
Proof.
  unfold New, load, bind.
  destruct (remote w url (gets w)) as [msg | [code [data0 | msg]]] eqn:R.
  - rewrite (FetchSpec.httpGet_transport_error _ _ _ _ R). cbn.
    unfold ReadFile. cbn. destruct (files w !! fn); cbn;
      rewrite <- ?app_assoc; auto 6.
  - destruct (Z.eq_dec code 200) as [-> | Hne].
    + rewrite (FetchSpec.httpGet_ok _ _ _ _ R). cbn. auto 6.
    + rewrite (FetchSpec.httpGet_bad_status _ _ _ _ R Hne). cbn. auto 6.
  - destruct (Z.eq_dec code 200) as [-> | Hne].
    + rewrite (FetchSpec.httpGet_body_error _ _ _ _ R). cbn.
      unfold ReadFile. cbn. destruct (files w !! fn); cbn;
        rewrite <- ?app_assoc; auto 6.
    + rewrite (FetchSpec.httpGet_bad_status _ _ _ _ R Hne). cbn. auto 6.
Qed.

(** X4: when the GET of [New] fails in transport (or times out) or the
    body of a 200 response cannot be read, and the fallback file exists,
    [New] returns a cache whose snapshot is the content of the file, with
    fresh open channels and the goroutine waiting at its first select; the
    two failures are logged and the disk is left as it was. *)
Theorem New_falls_back url fn w msg data :
  remote w url (gets w) = GetErr msg
  \/ remote w url (gets w)
     = GetResp {| StatusCode := 200; body := BodyErr msg |} ->
  files w !! fn = Some data ->
  exists w',
    New url fn w
    = Ret {| cache := {| filename := fn; url := url; content := Some data;
                         update := make_chan 1; close := make_chan 0 |};
             pc := Select1; tic := make_chan 1; returned := [] |} w'
    /\ files w' = files w
    /\ logged w' = logged w ++ [msg; try_local_msg url msg]
    /\ trace w' = trace w ++ [EGet url loadTimeout; EReadFile fn].
Proof.
  intros Hr Hf.
  assert (HG : httpGet url loadTimeout w
               = Ret (None, Some msg) (say msg (asked url loadTimeout w))).
  { destruct Hr as [Hr | Hr].
    - apply FetchSpec.httpGet_transport_error. exact Hr.
    - apply FetchSpec.httpGet_body_error. exact Hr. }
  eexists. split.
  - apply BootSpec.New_of_load. apply (BootSpec.load_fallback _ _ _ _ _ _ _ HG Hf).
  - cbn. rewrite <- !app_assoc. auto.
Qed.

Lemma New_falls_back_witness :
  exists w',
    New Samples.source Samples.fallback Samples.w_down_local
    = Ret {| cache := {| filename := Samples.fallback; url := Samples.source;
                         content := Some (Samples.txt "local");
                         update := make_chan 1; close := make_chan 0 |};
             pc := Select1; tic := make_chan 1; returned := [] |} w'
    /\ files w' = files Samples.w_down_local
    /\ logged w'
       = logged Samples.w_down_local
         ++ ["dial tcp: connection refused";
             try_local_msg Samples.source "dial tcp: connection refused"]
    /\ trace w'
       = trace Samples.w_down_local
         ++ [EGet Samples.source loadTimeout; EReadFile Samples.fallback].
Proof.
  apply (New_falls_back Samples.source Samples.fallback Samples.w_down_local
           "dial tcp: connection refused" (Samples.txt "local")).
  - left. reflexivity.
  - reflexivity.
Defined.

(** X5: a round of the loop whose GET fails in transport (or times out),
    or whose 200 response has an unreadable body, changes nothing in the
    process but the goroutine's position: the snapshot and both channels
    are kept, nothing is written to disk, the error is logged, and the
    goroutine goes to its shutdown check. *)
Theorem refresh_error_keeps_everything s w msg :
  pc s = Fetch ->
  remote w (url (cache s)) (gets w) = GetErr msg
  \/ remote w (url (cache s)) (gets w)
     = GetResp {| StatusCode := 200; body := BodyErr msg |} ->
  exists w',
    step BgRun s w = Ret (Some (at_pc s Select2)) w'
    /\ files w' = files w
    /\ writes w' = writes w
    /\ logged w' = logged w ++ [msg]
    /\ trace w' = trace w ++ [EGet (url (cache s)) loadTimeout].
Proof.
  intros Hp Hr.
  assert (HG : httpGet (url (cache s)) loadTimeout w
               = Ret (None, Some msg)
                   (say msg (asked (url (cache s)) loadTimeout w))).
  { destruct Hr as [Hr | Hr].
    - apply FetchSpec.httpGet_transport_error. exact Hr.
    - apply FetchSpec.httpGet_body_error. exact Hr. }
  eexists. split.
  - rewrite (RefreshSpec.step_fetch _ _ Hp), (RefreshSpec.fetch_keeps _ _ _ _ _ HG).
    destruct s; reflexivity.
  - cbn. auto.
Qed.

Lemma refresh_error_keeps_everything_witness :
  let s := Samples.state_after [TimerFires; BgTic] Samples.w_down_local in
  let w := Samples.world_after [TimerFires; BgTic] Samples.w_down_local in
  exists w',
    step BgRun s w = Ret (Some (at_pc s Select2)) w'
    /\ files w' = files w
    /\ writes w' = writes w
    /\ logged w' = logged w ++ ["dial tcp: connection refused"]
    /\ trace w' = trace w ++ [EGet (url (cache s)) loadTimeout].
Proof.
  apply (refresh_error_keeps_everything
           (Samples.state_after [TimerFires; BgTic] Samples.w_down_local)
           (Samples.world_after [TimerFires; BgTic] Samples.w_down_local)
           "dial tcp: connection refused").
  - vm_compute. reflexivity.
  - left. vm_compute. reflexivity.
Defined.

(** X16: when the source answers 200 and the body is read in full,
    [New] returns a cache whose snapshot is that body, whatever the
    fallback file holds: the file is neither read nor written and nothing
    is logged. *)
Theorem New_takes_remote src fn w data :
  remote w src (gets w)
  = GetResp {| StatusCode := 200; body := BodyOk data |} ->
  exists w',
    New src fn w
    = Ret {| cache := {| filename := fn; url := src; content := Some data;
                         update := make_chan 1; close := make_chan 0 |};
             pc := Select1; tic := make_chan 1; returned := [] |} w'
    /\ files w' = files w
    /\ logged w' = logged w
    /\ trace w' = trace w ++ [EGet src loadTimeout].
Proof.
  intros Hr. eexists. split.
  - apply BootSpec.New_of_load, BootSpec.load_remote.
    apply (FetchSpec.httpGet_ok _ _ _ _ Hr).
  - cbn. auto.
Qed.

Lemma New_takes_remote_witness :
  exists w',
    New Samples.source Samples.fallback Samples.w_v1
    = Ret {| cache := {| filename := Samples.fallback; url := Samples.source;
                         content := Some (Samples.txt "v1");
                         update := make_chan 1; close := make_chan 0 |};
             pc := Select1; tic := make_chan 1; returned := [] |} w'
    /\ files w' = files Samples.w_v1
    /\ logged w' = logged Samples.w_v1
    /\ trace w' = trace Samples.w_v1 ++ [EGet Samples.source loadTimeout].
Proof.
  apply (New_takes_remote Samples.source Samples.fallback Samples.w_v1
           (Samples.txt "v1")).
  reflexivity.
Defined.

End IoFacts.

(** ** Further facts: the refresh loop *)

Module LoopFacts.
Import Go cache Props.

Lemma only_200_v1 : only_200 Samples.w_v1.
Proof. intros u n resp H. cbn in H. injection H as <-. reflexivity. Qed.

(** X6: as long as the source never answers with a status other than
    200, the snapshot of a cache that [New] returned is never the nil
    slice, whatever the schedule and however many fetches fail. *)
Theorem snapshot_stays_non_nil url fn w0 s0 w1 acts s w :
  only_200 w0 ->
  New url fn w0 = Ret s0 w1 ->
  exec acts s0 w1 = Ret (Some s) w ->
  content (cache s) <> None.
Proof.
  intros H200 HN HE.
  destruct (StaleSpec.New_only_200 _ _ _ _ _ H200 HN) as [Hr Hc].
  apply (StaleSpec.snapshot_never_nil_with_only_200 acts s0 w1 s w); auto.
  unfold only_200 in *. rewrite Hr. exact H200.
Qed.

Lemma snapshot_stays_non_nil_witness :
  content (cache (Samples.state_after
                    (CallGet :: BgUpdate :: [BgRun; BgRun; BgRun])
                    Samples.w_v1)) <> None.
Proof.
  apply (snapshot_stays_non_nil Samples.source Samples.fallback Samples.w_v1
           (Samples.state_after [] Samples.w_v1)
           (Samples.world_after [] Samples.w_v1)
           (CallGet :: BgUpdate :: [BgRun; BgRun; BgRun])
           (Samples.state_after
              (CallGet :: BgUpdate :: [BgRun; BgRun; BgRun]) Samples.w_v1)
           (Samples.world_after
              (CallGet :: BgUpdate :: [BgRun; BgRun; BgRun]) Samples.w_v1)).
  - exact only_200_v1.
  - vm_compute. reflexivity.
  - vm_compute. reflexivity.
Defined.

Lemma New_gets url fn w s w' :
  New url fn w = Ret s w' -> gets w' = S (gets w).
Proof.
  unfold New, load, bind.
  destruct (FetchSpec.httpGet_returns url loadTimeout w)
    as (b & e & w1 & -> & Hg & _).
  destruct e; cbn.
  - unfold ReadFile. cbn. destruct (files w1 !! fn); cbn; [ | discriminate].
    intros [= <- <-]. exact Hg.
  - intros [= <- <-]. exact Hg.
Qed.

Lemma step_budget a s w s' w' :
  chans_ok s ->
  step a s w = Ret (Some s') w' ->
  (gets w' + inflight s' + pending s'
   <= gets w + inflight s + pending s + invitations [a])%nat.
Proof.
  intros Hok Hs.
  destruct (goroutine_action a) eqn:Ha.
  - pose proof (CoalesceSpec.goroutine_step_budget _ _ _ _ _ Hok Ha Hs).
    destruct a; cbn; lia.
  - destruct Hok as ((Hcu & Hlu & Hqu) & _ & (Hct & Hlt & Hqt & Hot) & _).
    revert Hs. unfold inflight, pending.
    destruct a as [ | | | | | t]; try discriminate; unfold step.
    + unfold try_send. rewrite Hot, Hct.
      destruct (buf (tic s)) as [ | v [ | v' rest]] eqn:Hb; cbn;
        intros [= <- <-]; cbn; rewrite ?Hb; cbn; lia.
    + unfold bind, Get, try_send. rewrite Hcu.
      destruct (closed (update (cache s))); [discriminate | ].
      destruct (buf (update (cache s))) as [ | v [ | v' rest]] eqn:Hb; cbn;
        intros [= <- <-]; cbn; rewrite ?Hb; cbn; lia.
    + unfold bind, Close. destruct (send (close (cache s)) t 1);
        try discriminate; intros [= <- <-]; cbn; lia.
Qed.

Lemma exec_budget acts : forall s w s' w',
  chans_ok s ->
  exec acts s w = Ret (Some s') w' ->
  (gets w' + inflight s' + pending s'
   <= gets w + inflight s + pending s + invitations acts)%nat.
Proof.
  induction acts as [ | a acts IH]; intros s w s' w' Hok H.
  - injection H as <- <-. cbn. lia.
  - rewrite RefreshSpec.exec_cons in H.
    destruct (step a s w) as [[s1 | ] w1 | ] eqn:Hs; try discriminate.
    pose proof (step_budget _ _ _ _ _ Hok Hs) as H1.
    pose proof (IH _ _ _ _ (ChanSpec.step_chans_ok _ _ _ _ _ Hok Hs) H) as H2.
    assert (invitations (a :: acts) = invitations [a] + invitations acts)%nat
      by (destruct a; cbn; lia).
    lia.
Qed.

(** X7: every GET is paid for.  After [New] and any schedule, the number
    of GETs sent since before [New] is at most one (the bootstrap) plus
    the number of timer ticks and [Get] calls in the schedule. *)
Theorem fetches_are_invited url fn w0 s0 w1 acts s w :
  New url fn w0 = Ret s0 w1 ->
  exec acts s0 w1 = Ret (Some s) w ->
  (gets w <= gets w0 + 1 + invitations acts)%nat.
Proof.
  intros HN HE.
  pose proof (New_gets _ _ _ _ _ HN) as Hg.
  pose proof (exec_budget _ _ _ _ _ (ChanSpec.New_chans_ok _ _ _ _ _ HN) HE) as Hb.
  destruct (ChanSpec.New_returns _ _ _ _ _ HN) as [b ->].
  unfold inflight, pending in Hb. cbn in Hb. lia.
Qed.

Lemma fetches_are_invited_witness :
  (gets (Samples.world_after
           (repeat CallGet 50 ++ [BgUpdate; BgRun; BgRun; BgRun; TimerFires])
           Samples.w_v1)
   <= gets Samples.w_v1 + 1
      + invitations
          (repeat CallGet 50 ++ [BgUpdate; BgRun; BgRun; BgRun; TimerFires]))%nat.
Proof.
  apply (fetches_are_invited Samples.source Samples.fallback Samples.w_v1
           (Samples.state_after [] Samples.w_v1)
           (Samples.world_after [] Samples.w_v1)
           (repeat CallGet 50 ++ [BgUpdate; BgRun; BgRun; BgRun; TimerFires])
           (Samples.state_after
              (repeat CallGet 50 ++ [BgUpdate; BgRun; BgRun; BgRun; TimerFires])
              Samples.w_v1)).
  - vm_compute. reflexivity.
  - vm_compute. reflexivity.
Defined.

Lemma httpGet_trace url timeout w r w' :
  httpGet url timeout w = Ret r w' ->
  trace w' = trace w ++ [EGet url timeout].
Proof.
  destruct (remote w url (gets w)) as [msg | [code [data0 | msg]]] eqn:R.
  - rewrite (FetchSpec.httpGet_transport_error _ _ _ _ R). intros [= _ <-]. reflexivity.
  - destruct (Z.eq_dec code 200) as [-> | Hne].
    + rewrite (FetchSpec.httpGet_ok _ _ _ _ R). intros [= _ <-]. reflexivity.
    + rewrite (FetchSpec.httpGet_bad_status _ _ _ _ R Hne). intros [= _ <-]. reflexivity.
  - destruct (Z.eq_dec code 200) as [-> | Hne].
    + rewrite (FetchSpec.httpGet_body_error _ _ _ _ R). intros [= _ <-]. reflexivity.
    + rewrite (FetchSpec.httpGet_bad_status _ _ _ _ R Hne). intros [= _ <-]. reflexivity.
Qed.

(** What one action does to [filename], [url] and the event trace. *)
Lemma step_outside_effects a s w s' w' :
  step a s w = Ret (Some s') w' ->
  filename (cache s') = filename (cache s)
  /\ url (cache s') = url (cache s)
  /\ exists evs,
       trace w' = trace w ++ evs
       /\ Forall (refresh_event (url (cache s)) (filename (cache s))) evs.
Proof.
  intros Hs.
  destruct (goroutine_action a) eqn:Ha.
  - destruct a as [ | | | | | t]; try discriminate; revert Hs;
      unfold step, goroutine.
    + destruct (pc s); try discriminate.
      destruct (try_recv (tic s)); try discriminate; intros [= <- <-];
        cbn; repeat split; auto; exists []; rewrite app_nil_r; auto.
    + destruct (pc s); try discriminate.
      destruct (try_recv (update (cache s))) as [v o ch | | ];
        try discriminate; intros [= <- <-];
        cbn; repeat split; auto; exists []; rewrite app_nil_r; auto.
    + destruct (pc s) eqn:Hp; try discriminate.
      * unfold fetch, bind.
        destruct (httpGet (url (cache s)) loadTimeout w) as [[b e] w1 | ] eqn:HG;
          cbn; [ | discriminate].
        pose proof (httpGet_trace _ _ _ _ _ HG) as Ht.
        destruct e; cbn; intros [= <- <-]; cbn; repeat split; auto;
          eexists; (split; [exact Ht | ]); repeat constructor.
      * unfold persist, bind, WriteFile.
        destruct (wfault w (writes w)); intros [= <- <-]; cbn;
          repeat split; auto; eexists; (split; [reflexivity | ]);
          repeat constructor.
      * destruct (try_recv (close (cache s))) as [v o ch | | ];
          intros [= <- <-]; cbn; repeat split; auto;
          exists []; rewrite app_nil_r; auto.
      * destruct (close_chan (update (cache s))) as [ | ch [ | t1 woken]];
          try discriminate; intros [= <- <-]; cbn; repeat split; auto;
          exists []; rewrite app_nil_r; auto.
      * destruct (close_chan (close (cache s))) as [ | ch [ | t1 woken]];
          try discriminate; intros [= <- <-]; cbn; repeat split; auto;
          exists []; rewrite app_nil_r; auto.
  - assert (Ho : outside_action a = true)
      by (unfold outside_action; rewrite Ha; reflexivity).
    destruct (RefreshSpec.outside_step_frame _ _ _ _ _ Ho Hs)
      as (-> & _ & _ & Hf & Hu).
    repeat split; auto. exists []. rewrite app_nil_r. auto.
Qed.

Lemma exec_outside_effects acts : forall s w s' w',
  exec acts s w = Ret (Some s') w' ->
  filename (cache s') = filename (cache s)
  /\ url (cache s') = url (cache s)
  /\ exists evs,
       trace w' = trace w ++ evs
       /\ Forall (refresh_event (url (cache s)) (filename (cache s))) evs.
Proof.
  induction acts as [ | a acts IH]; intros s w s' w' H.
  - injection H as <- <-. repeat split; auto.
    exists []. rewrite app_nil_r. auto.
  - rewrite RefreshSpec.exec_cons in H.
    destruct (step a s w) as [[s1 | ] w1 | ] eqn:Hs; try discriminate.
    destruct (step_outside_effects _ _ _ _ _ Hs) as (Hf1 & Hu1 & evs1 & Ht1 & Hall1).
    destruct (IH _ _ _ _ H) as (Hf2 & Hu2 & evs2 & Ht2 & Hall2).
    rewrite Hf1, Hu1 in *.
    repeat split; try congruence.
    exists (evs1 ++ evs2). split.
    + rewrite Ht2, Ht1, app_assoc. reflexivity.
    + apply Forall_app. auto.
Qed.

(** X8: all that a cache does to the outside after [New] has returned is
    GET its [url] with the load timeout and write its [filename] with mode
    0644: the two names never change, and the fallback file is never read
    again. *)
Theorem after_New_only_refresh_events src fn w0 s0 w1 acts s w :
  New src fn w0 = Ret s0 w1 ->
  exec acts s0 w1 = Ret (Some s) w ->
  filename (cache s) = fn
  /\ url (cache s) = src
  /\ exists evs,
       trace w = trace w1 ++ evs /\ Forall (refresh_event src fn) evs.
Proof.
  intros HN HE.
  destruct (ChanSpec.New_returns _ _ _ _ _ HN) as [b ->].
  exact (exec_outside_effects _ _ _ _ _ HE).
Qed.

Lemma after_New_only_refresh_events_witness :
  let acts := [CallGet; BgUpdate; BgRun; BgRun; BgRun; CallClose 3] in
  let s := Samples.state_after acts Samples.w_v1 in
  let w := Samples.world_after acts Samples.w_v1 in
  filename (cache s) = Samples.fallback
  /\ url (cache s) = Samples.source
  /\ exists evs,
       trace w = trace (Samples.world_after [] Samples.w_v1) ++ evs
       /\ Forall (refresh_event Samples.source Samples.fallback) evs.
Proof.
  apply (after_New_only_refresh_events Samples.source Samples.fallback
           Samples.w_v1
           (Samples.state_after [] Samples.w_v1)
           (Samples.world_after [] Samples.w_v1)
           [CallGet; BgUpdate; BgRun; BgRun; BgRun; CallClose 3]).
  - vm_compute. reflexivity.
  - vm_compute. reflexivity.
Defined.

(** X9: the snapshot has one writer and so has the disk.  An action that
    changes the snapshot is the goroutine's fetch statement; an action
    that changes the files is the goroutine's write statement. *)
Theorem single_writer a s w s' w' :
  step a s w = Ret (Some s') w' ->
  (content (cache s') <> content (cache s) -> a = BgRun /\ pc s = Fetch)
  /\ (files w' <> files w -> a = BgRun /\ exists b, pc s = Persist b).
Proof.
  intros Hs.
  destruct (goroutine_action a) eqn:Ha.
  - destruct a as [ | | | | | t]; try discriminate; revert Hs;
      unfold step, goroutine.
    + destruct (pc s); try discriminate.
      destruct (try_recv (tic s)); try discriminate; intros [= <- <-];
        split; intros H; destruct H; reflexivity.
    + destruct (pc s); try discriminate.
      destruct (try_recv (update (cache s))) as [v o ch | | ];
        try discriminate; intros [= <- <-];
        split; intros H; destruct H; reflexivity.
    + destruct (pc s) eqn:Hp; try discriminate.
      * unfold bind. destruct (fetch (cache s) w) as [[c o] w1 | ] eqn:Hf;
          [ | discriminate].
        assert (Hfiles : files w1 = files w).
        { revert Hf. unfold fetch, bind.
          destruct (httpGet (url (cache s)) loadTimeout w) as [[b e] w2 | ] eqn:HG;
            [ | discriminate].
          pose proof (BootSpec.httpGet_files _ _ _ _ _ HG).
          destruct e; intros [= _ _ <-]; assumption. }
        intros [= <- <-]. split; [auto | ].
        intros H. destruct H. exact Hfiles.
      * unfold persist, bind, WriteFile.
        destruct (wfault w (writes w)); intros [= <- <-];
          (split; [intros H; destruct H; reflexivity | eauto]).
      * destruct (try_recv (close (cache s))) as [v o ch | | ];
          intros [= <- <-]; split; intros H; destruct H; reflexivity.
      * destruct (close_chan (update (cache s))) as [ | ch [ | t1 woken]];
          try discriminate; intros [= <- <-];
          split; intros H; destruct H; reflexivity.
      * destruct (close_chan (close (cache s))) as [ | ch [ | t1 woken]];
          try discriminate; intros [= <- <-];
          split; intros H; destruct H; reflexivity.
  - assert (Ho : outside_action a = true)
      by (unfold outside_action; rewrite Ha; reflexivity).
    destruct (RefreshSpec.outside_step_frame _ _ _ _ _ Ho Hs)
      as (-> & _ & Hc & _).
    split; intros H; destruct H; auto.
Qed.

Lemma single_writer_witness :
  let s := Samples.state_after [TimerFires; BgTic] Samples.w_v1_then_404 in
  let w := Samples.world_after [TimerFires; BgTic] Samples.w_v1_then_404 in
  let s' := Samples.state_after [TimerFires; BgTic; BgRun] Samples.w_v1_then_404 in
  let w' := Samples.world_after [TimerFires; BgTic; BgRun] Samples.w_v1_then_404 in
  (content (cache s') <> content (cache s) -> BgRun = BgRun /\ pc s = Fetch)
  /\ (files w' <> files w -> BgRun = BgRun /\ exists b, pc s = Persist b).
Proof.
  apply (single_writer BgRun
           (Samples.state_after [TimerFires; BgTic] Samples.w_v1_then_404)
           (Samples.world_after [TimerFires; BgTic] Samples.w_v1_then_404)
           (Samples.state_after [TimerFires; BgTic; BgRun] Samples.w_v1_then_404)
           (Samples.world_after [TimerFires; BgTic; BgRun] Samples.w_v1_then_404)).
  vm_compute. reflexivity.
Defined.

End LoopFacts.

(** ** Further facts: the accessor *)

Module AccessFacts.
Import Go cache Props.

(** X10: in every reachable state [Get] behaves according to where the
    goroutine stands.  Until the goroutine has closed [c.update], [Get]
    returns the snapshot, leaves the world alone and leaves one request
    pending; from then on it panics. *)
Theorem Get_by_goroutine s w :
  reachable s w ->
  Get (cache s) w
  = match pc s with
    | CloseClose | Exited => Panic "send on closed channel" w
    | _ => Ret (content (cache s), requested (cache s)) w
    end.
Proof.
  intros Hr.
  destruct (ChanSpec.reachable_chans_ok _ _ Hr) as ((Hcu & Hlu & _) & _ & _ & Hpc).
  destruct (pc s); destruct Hpc as [Hou _];
    try (apply CoalesceSpec.Get_requests; assumption);
    unfold Get, try_send; rewrite Hou; reflexivity.
Qed.

Lemma Get_by_goroutine_witness :
  let s := Samples.state_after (Samples.accepting 1 ++ [BgRun])
                               Samples.w_down_local in
  let w := Samples.world_after (Samples.accepting 1 ++ [BgRun])
                               Samples.w_down_local in
  Get (cache s) w
  = match pc s with
    | CloseClose | Exited => Panic "send on closed channel" w
    | _ => Ret (content (cache s), requested (cache s)) w
    end.
Proof.
  apply (Get_by_goroutine
           (Samples.state_after (Samples.accepting 1 ++ [BgRun])
                                Samples.w_down_local)
           (Samples.world_after (Samples.accepting 1 ++ [BgRun])
                                Samples.w_down_local)).
  apply (ShutdownSpec.run_reachable (Samples.accepting 1 ++ [BgRun])
                                    Samples.w_down_local).
  vm_compute. reflexivity.
Defined.

(** X11: a [Get] on a waiting goroutine brings the new content in.  With
    the goroutine at its first select, a source answering 200 with a
    readable body and a disk that takes the write, the call followed by
    the goroutine's receive, fetch and write leaves the fetched bytes as
    the snapshot and as the content of the fallback file, has sent one
    GET, and has used up the request. *)
Theorem Get_triggers_refresh s w data :
  reachable s w ->
  pc s = Select1 ->
  remote w (url (cache s)) (gets w)
  = GetResp {| StatusCode := 200; body := BodyOk data |} ->
  wfault w (writes w) = None ->
  exists s' w',
    exec [CallGet; BgUpdate; BgRun; BgRun] s w = Ret (Some s') w'
    /\ content (cache s') = Some data
    /\ files w' !! filename (cache s) = Some data
    /\ gets w' = S (gets w)
    /\ pc s' = Select2
    /\ buf (update (cache s')) = [].
Proof.
  intros Hr Hp Hresp Hw.
  pose proof (ChanSpec.reachable_chans_ok _ _ Hr) as Hok.
  destruct Hok as ((Hcu & Hlu & Hqu) & _ & _ & Hpc).
  rewrite Hp in Hpc. destruct Hpc as [Hou _].
  rewrite RefreshSpec.exec_cons.
  assert (H1 : step CallGet s w
               = Ret (Some (with_cache s (requested (cache s)))) w).
  { unfold step, bind. rewrite CoalesceSpec.Get_requests by assumption.
    reflexivity. }
  rewrite H1, RefreshSpec.exec_cons.
  assert (H2 : exists ch,
             step BgUpdate (with_cache s (requested (cache s))) w
             = Ret (Some (at_pc (with_cache s (set_update (cache s) ch)) Fetch)) w
             /\ buf ch = []).
  { unfold step, goroutine, try_recv, requested. cbn [pc with_cache cache].
    rewrite Hp.
    destruct (buf (update (cache s))) as [ | v [ | v' rest]] eqn:Hb.
    - cbn. rewrite Hqu. eexists. split; reflexivity.
    - rewrite Hb, Hqu. eexists. split; reflexivity.
    - cbn in Hlu. lia. }
  destruct H2 as (ch & H2 & Hch).
  rewrite H2, RefreshSpec.exec_cons.
  rewrite (RefreshSpec.step_fetch _ w) by reflexivity.
  cbn [cache at_pc with_cache].
  rewrite (RefreshSpec.fetch_replaces (set_update (cache s) ch) w (Some data)
             (asked (url (cache s)) loadTimeout w)
             (FetchSpec.httpGet_ok _ _ _ _ Hresp)).
  rewrite RefreshSpec.exec_cons.
  rewrite (RefreshSpec.step_persist _ _ (Some data)) by reflexivity.
  rewrite RefreshSpec.persist_stored by exact Hw.
  do 2 eexists. split; [reflexivity | ].
  cbn. repeat split; auto. apply lookup_insert_eq.
Qed.

Lemma Get_triggers_refresh_witness :
  let s := Samples.state_after [] Samples.w_v1 in
  let w := Samples.world_after [] Samples.w_v1 in
  exists s' w',
    exec [CallGet; BgUpdate; BgRun; BgRun] s w = Ret (Some s') w'
    /\ content (cache s') = Some (Samples.txt "v1")
    /\ files w' !! filename (cache s) = Some (Samples.txt "v1")
    /\ gets w' = S (gets w)
    /\ pc s' = Select2
    /\ buf (update (cache s')) = [].
Proof.
  apply (Get_triggers_refresh
           (Samples.state_after [] Samples.w_v1)
           (Samples.world_after [] Samples.w_v1)
           (Samples.txt "v1")).
  - apply (ShutdownSpec.run_reachable [] Samples.w_v1). vm_compute. reflexivity.
  - vm_compute. reflexivity.
  - vm_compute. reflexivity.
  - vm_compute. reflexivity.
Defined.

End AccessFacts.

(** ** Further facts: shutdown *)

Module ShutdownFacts.
Import Go cache Props.

Lemma step_exited a s w s' w' :
  chans_ok s ->
  pc s = Exited ->
  step a s w = Ret (Some s') w' ->
  w' = w /\ pc s' = Exited /\ cache s' = cache s /\ returned s' = returned s.
Proof.
  intros (_ & _ & _ & Hpc) Hp. rewrite Hp in Hpc. destruct Hpc as [Hou Hoc].
  destruct a as [ | | | | | t]; unfold step, goroutine; rewrite ?Hp.
  - destruct (try_send (tic s) 0); intros [= <- <-]; auto.
  - discriminate.
  - discriminate.
  - discriminate.
  - unfold bind, Get, try_send. rewrite Hou. discriminate.
  - unfold bind, Close, send, try_send. rewrite Hoc. discriminate.
Qed.

Lemma step_accept s w t v q :
  pc s = Select2 ->
  buf (close (cache s)) = [] ->
  sendq (close (cache s)) = (t, v) :: q ->
  step BgRun s w
  = Ret (Some (wake (at_pc (with_cache s
                              (set_close (cache s)
                                 {| buf := []; cap := cap (close (cache s));
                                    closed := closed (close (cache s));
                                    sendq := q |}))
                           CloseUpdate)
                    (Some t))) w.
Proof.
  intros Hp Hb Hq. unfold step, goroutine, try_recv. rewrite Hp, Hb, Hq.
  reflexivity.
Qed.

Lemma step_close_update s w :
  pc s = CloseUpdate ->
  closed (update (cache s)) = false ->
  sendq (update (cache s)) = [] ->
  step BgRun s w
  = Ret (Some (at_pc (with_cache s
                        (set_update (cache s)
                           {| buf := buf (update (cache s));
                              cap := cap (update (cache s));
                              closed := true; sendq := [] |}))
                     CloseClose)) w.
Proof.
  intros Hp Ho Hq. unfold step, goroutine, close_chan. rewrite Hp, Ho, Hq.
  reflexivity.
Qed.

Lemma step_close_close s w :
  pc s = CloseClose ->
  closed (close (cache s)) = false ->
  sendq (close (cache s)) = [] ->
  step BgRun s w
  = Ret (Some (at_pc (with_cache s
                        (set_close (cache s)
                           {| buf := buf (close (cache s));
                              cap := cap (close (cache s));
                              closed := true; sendq := [] |}))
                     Exited)) w.
Proof.
  intros Hp Ho Hq. unfold step, goroutine, close_chan. rewrite Hp, Ho, Hq.
  reflexivity.
Qed.

(** X12: once the goroutine has returned nothing happens any more.  In
    every schedule that runs on from there without a panic, the world is
    untouched (no GET, no write, no log line) and the cache keeps its
    snapshot and its closed channels. *)
Theorem quiet_after_exit s w acts s' w' :
  reachable s w ->
  pc s = Exited ->
  exec acts s w = Ret (Some s') w' ->
  w' = w /\ pc s' = Exited /\ cache s' = cache s /\ returned s' = returned s.
Proof.
  intros Hr. pose proof (ChanSpec.reachable_chans_ok _ _ Hr) as Hok. clear Hr.
  revert s w Hok.
  induction acts as [ | a acts IH]; intros s w Hok Hp H.
  - injection H as <- <-. auto.
  - rewrite RefreshSpec.exec_cons in H.
    destruct (step a s w) as [[s1 | ] w1 | ] eqn:Hs; try discriminate.
    destruct (step_exited _ _ _ _ _ Hok Hp Hs) as (-> & Hp1 & Hc1 & Hr1).
    destruct (IH s1 w (ChanSpec.step_chans_ok _ _ _ _ _ Hok Hs) Hp1 H)
      as (-> & Hp2 & Hc2 & Hr2).
    repeat split; congruence.
Qed.

Lemma quiet_after_exit_witness :
  let s := Samples.state_after (Samples.shutdown 1) Samples.w_down_local in
  let w := Samples.world_after (Samples.shutdown 1) Samples.w_down_local in
  let s' := Samples.state_after (Samples.shutdown 1 ++ [TimerFires; TimerFires])
                                Samples.w_down_local in
  let w' := Samples.world_after (Samples.shutdown 1 ++ [TimerFires; TimerFires])
                                Samples.w_down_local in
  w' = w /\ pc s' = Exited /\ cache s' = cache s /\ returned s' = returned s.
Proof.
  apply (quiet_after_exit
           (Samples.state_after (Samples.shutdown 1) Samples.w_down_local)
           (Samples.world_after (Samples.shutdown 1) Samples.w_down_local)
           [TimerFires; TimerFires]).
  - apply (ShutdownSpec.run_reachable (Samples.shutdown 1) Samples.w_down_local).
    vm_compute. reflexivity.
  - vm_compute. reflexivity.
  - vm_compute. reflexivity.
Defined.

(** X13: a single pending [Close] is served cleanly.  With the goroutine
    at its shutdown check and exactly one caller parked, three statements
    of the goroutine let that caller's [Close] return, close both channels
    and end the goroutine, without a fetch and with the snapshot kept. *)
Theorem lone_Close_completes s w t v :
  reachable s w ->
  pc s = Select2 ->
  sendq (close (cache s)) = [(t, v)] ->
  exists s',
    exec [BgRun; BgRun; BgRun] s w = Ret (Some s') w
    /\ pc s' = Exited
    /\ returned s' = returned s ++ [t]
    /\ content (cache s') = content (cache s)
    /\ closed (update (cache s')) = true
    /\ closed (close (cache s')) = true.
Proof.
  intros Hr Hp Hq.
  destruct (ChanSpec.reachable_chans_ok _ _ Hr)
    as ((Hcu & Hlu & Hqu) & (Hcc & Hbc) & _ & Hpc).
  rewrite Hp in Hpc. destruct Hpc as [Hou Hoc].
  rewrite RefreshSpec.exec_cons, (step_accept s w t v []) by assumption.
  rewrite RefreshSpec.exec_cons, step_close_update by (cbn; auto).
  rewrite RefreshSpec.exec_cons, step_close_close by (cbn; auto).
  eexists. split; [reflexivity | ]. cbn. auto 10.
Qed.

Lemma lone_Close_completes_witness :
  let s := Samples.state_after (CallClose 1 :: Samples.tick_fetch)
                               Samples.w_down_local in
  let w := Samples.world_after (CallClose 1 :: Samples.tick_fetch)
                               Samples.w_down_local in
  exists s',
    exec [BgRun; BgRun; BgRun] s w = Ret (Some s') w
    /\ pc s' = Exited
    /\ returned s' = returned s ++ [1%nat]
    /\ content (cache s') = content (cache s)
    /\ closed (update (cache s')) = true
    /\ closed (close (cache s')) = true.
Proof.
  apply (lone_Close_completes
           (Samples.state_after (CallClose 1 :: Samples.tick_fetch)
                                Samples.w_down_local)
           (Samples.world_after (CallClose 1 :: Samples.tick_fetch)
                                Samples.w_down_local)
           1%nat 1).
  - apply (ShutdownSpec.run_reachable (CallClose 1 :: Samples.tick_fetch)
                                      Samples.w_down_local).
    vm_compute. reflexivity.
  - vm_compute. reflexivity.
  - vm_compute. reflexivity.
Defined.

(** X14: two callers in [Close] at once bring the process down.  With
    the goroutine at its shutdown check and at least two callers parked,
    the first caller's [Close] returns, and two statements later the
    goroutine's [close(c.close)] makes the second caller panic. *)
Theorem two_Closes_crash s w t1 v1 t2 v2 q :
  reachable s w ->
  pc s = Select2 ->
  sendq (close (cache s)) = (t1, v1) :: (t2, v2) :: q ->
  (exists s1,
      step BgRun s w = Ret (Some s1) w
      /\ returned s1 = returned s ++ [t1])
  /\ exec [BgRun; BgRun; BgRun] s w = Panic "send on closed channel" w.
Proof.
  intros Hr Hp Hq.
  destruct (ChanSpec.reachable_chans_ok _ _ Hr)
    as ((Hcu & Hlu & Hqu) & (Hcc & Hbc) & _ & Hpc).
  rewrite Hp in Hpc. destruct Hpc as [Hou Hoc].
  split.
  - rewrite (step_accept s w t1 v1 ((t2, v2) :: q)) by assumption.
    eexists. split; reflexivity.
  - rewrite RefreshSpec.exec_cons,
      (step_accept s w t1 v1 ((t2, v2) :: q)) by assumption.
    rewrite RefreshSpec.exec_cons, step_close_update by (cbn; auto).
    rewrite RefreshSpec.exec_cons.
    assert (H3 : forall s3,
               pc s3 = CloseClose ->
               closed (close (cache s3)) = false ->
               sendq (close (cache s3)) = (t2, v2) :: q ->
               step BgRun s3 w = Panic "send on closed channel" w).
    { intros s3 H1 H2 H3. unfold step, goroutine, close_chan.
      rewrite H1, H2, H3. reflexivity. }
    rewrite H3; cbn; auto.
Qed.

Lemma two_Closes_crash_witness :
  let s := Samples.state_after (CallClose 1 :: CallClose 2 :: Samples.tick_fetch)
                               Samples.w_down_local in
  let w := Samples.world_after (CallClose 1 :: CallClose 2 :: Samples.tick_fetch)
                               Samples.w_down_local in
  (exists s1,
      step BgRun s w = Ret (Some s1) w
      /\ returned s1 = returned s ++ [1%nat])
  /\ exec [BgRun; BgRun; BgRun] s w = Panic "send on closed channel" w.
Proof.
  apply (two_Closes_crash
           (Samples.state_after
              (CallClose 1 :: CallClose 2 :: Samples.tick_fetch)
              Samples.w_down_local)
           (Samples.world_after
              (CallClose 1 :: CallClose 2 :: Samples.tick_fetch)
              Samples.w_down_local)
           1%nat 1 2%nat 1 []).
  - apply (ShutdownSpec.run_reachable
             (CallClose 1 :: CallClose 2 :: Samples.tick_fetch)
             Samples.w_down_local).
    vm_compute. reflexivity.
  - vm_compute. reflexivity.
  - vm_compute. reflexivity.
Defined.

(** X15: [Close] does not wake the goroutine.  When the goroutine waits
    at its first select with no tick and no refresh request buffered, a
    caller entering [Close] is parked and no statement of the goroutine
    can run: the call stays blocked until the timer fires or somebody
    calls [Get]. *)
Theorem Close_waits_for_a_wakeup s w t :
  reachable s w ->
  pc s = Select1 ->
  buf (tic s) = [] ->
  buf (update (cache s)) = [] ->
  exists s1,
    step (CallClose t) s w = Ret (Some s1) w
    /\ parked t s1
    /\ returned s1 = returned s
    /\ forall a, goroutine_action a = true -> step a s1 w = Ret None w.
Proof.
  intros Hr Hp Hbt Hbu.
  destruct (ChanSpec.reachable_chans_ok _ _ Hr)
    as ((Hcu & Hlu & Hqu) & (Hcc & Hbc) & (Hct & Hlt & Hqt & Hot) & Hpc).
  rewrite Hp in Hpc. destruct Hpc as [Hou Hoc].
  unfold step at 1, bind, Close, send, try_send, parked.
  rewrite Hoc, Hcc, Hbc. cbn.
  eexists. split; [reflexivity | ]. cbn.
  split; [apply in_or_app; right; left; reflexivity | ].
  split; [reflexivity | ].
  intros a Ha. destruct a; try discriminate;
    unfold step, goroutine, try_recv; cbn; rewrite Hp.
  - rewrite Hbt, Hqt, Hot. reflexivity.
  - rewrite Hbu, Hqu, Hou. reflexivity.
  - reflexivity.
Qed.

Lemma Close_waits_for_a_wakeup_witness :
  let s := Samples.state_after [] Samples.w_v1 in
  let w := Samples.world_after [] Samples.w_v1 in
  exists s1,
    step (CallClose 1) s w = Ret (Some s1) w
    /\ parked 1 s1
    /\ returned s1 = returned s
    /\ forall a, goroutine_action a = true -> step a s1 w = Ret None w.
Proof.
  apply (Close_waits_for_a_wakeup
           (Samples.state_after [] Samples.w_v1)
           (Samples.world_after [] Samples.w_v1)
           1%nat).
  - apply (ShutdownSpec.run_reachable [] Samples.w_v1). vm_compute. reflexivity.
  - vm_compute. reflexivity.
  - vm_compute. reflexivity.
  - vm_compute. reflexivity.
Defined.

Lemma accepted_iff_returned_witness :
  let s := Samples.state_after (Samples.accepting 1) Samples.w_down_local in
  accepted (pc s) = true <-> returned s <> [].
Proof.
  apply (ShutdownSpec.accepted_iff_returned
           (Samples.state_after (Samples.accepting 1) Samples.w_down_local)
           (Samples.world_after (Samples.accepting 1) Samples.w_down_local)).
  apply (ShutdownSpec.run_reachable (Samples.accepting 1) Samples.w_down_local).
  vm_compute. reflexivity.
Defined.

End ShutdownFacts.
